(** * Websocket consumers of [channels.generic.websocket]

    A shallow embedding of [src/channels/generic/websocket.py]: the JSON codec
    the consumers call ([json.dumps] / [json.loads] with their default
    arguments), the synchronous and asynchronous lifecycle consumers, their
    JSON variants and the JSON demultiplexer, followed by the properties of
    the specification that were checked against them. *)

From Stdlib Require Import List NArith ZArith Lia String Ascii Bool.
From Stdlib Require Import DecimalN DecimalZ DecimalPos DecimalFacts.
Import ListNotations.

Local Open Scope N_scope.

(** ** Python values used by the consumers *)

(** A Python [str] is a sequence of code points. *)
Definition str := list N.

(** A [bytes] object: a sequence of octets. *)
Definition bytes := list Byte.byte.

(** The code points of an ASCII literal. *)
Definition txt (s : string) : str := map N_of_ascii (list_ascii_of_string s).

(** Exceptions raised by the modelled code.  [JSONDecodeError] is a subclass
    of [ValueError] in Python; it is kept apart here so that a decoding
    failure can be told from the consumers' own [ValueError]s. *)
Inductive exn : Type :=
| ValueError (msg : string)
| JSONDecodeError (msg : string)
| TypeError (msg : string)
| KeyError (key : string)
| AttributeError (name : string)
| StopIteration
| RecursionError
| AcceptConnection
| DenyConnection
| StopConsumer
| InvalidChannelLayerError (msg : string)
| TimeoutError.

Inductive result (A : Type) : Type :=
| Ok (a : A)
| Raise (e : exn).
Arguments Ok {A} a.
Arguments Raise {A} e.

(** ** Floats

    [float] is a type of the interpreter: [float(s)], which [json.loads]
    calls on the text of a number with a fraction or an exponent,
    [float.__repr__], which [json.dumps] writes a finite float with, and the
    comparisons are not code of the [json] module or of this repository.
    They are taken as an interface. *)
Inductive float_class : Type :=
| Finite
| NotANumber
| PlusInfinity
| MinusInfinity.

Class PyFloat : Type := {
  (** the values of [float] *)
  pyfloat : Type;
  (** [float(s)] for the text of a JSON number *)
  float_of_str : str -> pyfloat;
  (** [float.__repr__(o)] *)
  float_repr : pyfloat -> str;
  (** [float('nan')], [float('inf')] and [float('-inf')] *)
  float_nan : pyfloat;
  float_inf : pyfloat;
  float_neginf : pyfloat;
  (** [o != o], [o == float('inf')] and [o == float('-inf')], the tests of
      [floatstr] in [json.encoder] *)
  float_kind : pyfloat -> float_class;
  (** [a == b] for two floats, and for a float and an [int] *)
  float_eqb : pyfloat -> pyfloat -> bool;
  float_eq_int : pyfloat -> Z -> bool
}.

(** ** JSON values

    The values [json.loads] builds: [None], [bool], [int], [float], [str],
    [list] and [dict] with [str] keys.  A [dict] keeps its insertion
    order, which is the order [json.dumps] writes it in, so it is an
    association list; a well-formed one has pairwise distinct keys. *)
Module Json.

Abbreviation QUOTE := 34 (only parsing).
Abbreviation BACKSLASH_CHAR := 92 (only parsing).
Abbreviation COMMA := 44 (only parsing).
Abbreviation COLON := 58 (only parsing).
Abbreviation LBRACKET := 91 (only parsing).
Abbreviation RBRACKET := 93 (only parsing).
Abbreviation LBRACE := 123 (only parsing).
Abbreviation RBRACE := 125 (only parsing).
Abbreviation MINUS := 45 (only parsing).
Abbreviation SPACE := 32 (only parsing).

Section WithFloats.
Context {F : PyFloat}.

Unset Elimination Schemes.
Inductive json : Type :=
| JNull
| JBool (b : bool)
| JInt (z : Z)
| JFloat (f : pyfloat)
| JStr (s : str)
| JList (l : list json)
| JDict (d : list (str * json)).
Set Elimination Schemes.

Section JsonInd.
Variable P : json -> Prop.
Hypothesis HNull : P JNull.
Hypothesis HBool : forall b, P (JBool b).
Hypothesis HInt : forall z, P (JInt z).
Hypothesis HFloat : forall f, P (JFloat f).
Hypothesis HStr : forall s, P (JStr s).
Hypothesis HList : forall l, Forall P l -> P (JList l).
Hypothesis HDict : forall d, Forall (fun kv => P (snd kv)) d -> P (JDict d).

Fixpoint json_ind (v : json) : P v :=
  match v with
  | JNull => HNull
  | JBool b => HBool b
  | JInt z => HInt z
  | JFloat f => HFloat f
  | JStr s => HStr s
  | JList l =>
      HList l ((fix all (l : list json) : Forall P l :=
                  match l with
                  | [] => Forall_nil _
                  | x :: l' => Forall_cons x (json_ind x) (all l')
                  end) l)
  | JDict d =>
      HDict d ((fix all (d : list (str * json))
                  : Forall (fun kv => P (snd kv)) d :=
                  match d with
                  | [] => Forall_nil _
                  | kv :: d' => Forall_cons kv (json_ind (snd kv)) (all d')
                  end) d)
  end.
End JsonInd.

(** *** Character classes *)

(** [WHITESPACE_STR = ' \t\n\r'] *)
Definition is_ws (c : N) : bool :=
  (c =? SPACE) || (c =? 9) || (c =? 10) || (c =? 13).

(** [WHITESPACE.match(s, end).end()]: the text from the first character
    that is not white space. *)
Fixpoint skip_ws (s : str) : str :=
  match s with
  | c :: r => if is_ws c then skip_ws r else s
  | [] => []
  end.

(** *** [json.dumps] *)

(** A hexadecimal digit, lower case, as ['{0:04x}'.format] writes it. *)
Definition hexdigit (d : N) : N := if d <? 10 then 48 + d else 87 + d.

(** ['{0:04x}'.format(n)] for [n < 0x10000]. *)
Definition hex4 (n : N) : str :=
  [hexdigit (n / 4096 mod 16); hexdigit (n / 256 mod 16);
   hexdigit (n / 16 mod 16); hexdigit (n mod 16)].

(** ['\\u{0:04x}'.format(n)] *)
Definition uXXXX (n : N) : str := BACKSLASH_CHAR :: 117 :: hex4 n.

(** [replace] of [py_encode_basestring_ascii]: what one character of a
    string becomes.  Characters from the space to the tilde other than the
    quote and the backslash are not matched by [ESCAPE_ASCII] and stay. *)
Definition encode_char (c : N) : str :=
  if c =? BACKSLASH_CHAR then [BACKSLASH_CHAR; BACKSLASH_CHAR]
  else if c =? QUOTE then [BACKSLASH_CHAR; QUOTE]
  else if (SPACE <=? c) && (c <=? 126) then [c]
  else if c =? 8 then [BACKSLASH_CHAR; 98]
  else if c =? 12 then [BACKSLASH_CHAR; 102]
  else if c =? 10 then [BACKSLASH_CHAR; 110]
  else if c =? 13 then [BACKSLASH_CHAR; 114]
  else if c =? 9 then [BACKSLASH_CHAR; 116]
  else if c <? 65536 then uXXXX c
  else
    let n := c - 65536 in
    let s1 := N.lor 55296 (N.land (N.shiftr n 10) 1023) in
    let s2 := N.lor 56320 (N.land n 1023) in
    uXXXX s1 ++ uXXXX s2.

(** [py_encode_basestring_ascii(s)] without the surrounding quotes. *)
Definition encode_chars (s : str) : str := flat_map encode_char s.

Definition encode_basestring_ascii (s : str) : str :=
  QUOTE :: encode_chars s ++ [QUOTE].

(** The decimal digits of a [Decimal.uint], most significant first. *)
Fixpoint uint_chars (d : Decimal.uint) : str :=
  match d with
  | Decimal.Nil => []
  | Decimal.D0 d => 48 :: uint_chars d
  | Decimal.D1 d => 49 :: uint_chars d
  | Decimal.D2 d => 50 :: uint_chars d
  | Decimal.D3 d => 51 :: uint_chars d
  | Decimal.D4 d => 52 :: uint_chars d
  | Decimal.D5 d => 53 :: uint_chars d
  | Decimal.D6 d => 54 :: uint_chars d
  | Decimal.D7 d => 55 :: uint_chars d
  | Decimal.D8 d => 56 :: uint_chars d
  | Decimal.D9 d => 57 :: uint_chars d
  end.

(** [int.__repr__] *)
Definition int_repr (z : Z) : str :=
  match Z.to_int z with
  | Decimal.Pos d => uint_chars d
  | Decimal.Neg d => MINUS :: uint_chars d
  end.

(** [floatstr(o)] of [json.encoder], with [allow_nan=True]. *)
Definition floatstr (o : pyfloat) : str :=
  match float_kind o with
  | NotANumber => txt "NaN"
  | PlusInfinity => txt "Infinity"
  | MinusInfinity => txt "-Infinity"
  | Finite => float_repr o
  end.

(** [', '.join(items)] *)
Fixpoint join_items (items : list str) : str :=
  match items with
  | [] => []
  | [x] => x
  | x :: rest => x ++ COMMA :: SPACE :: join_items rest
  end.

(** [json.dumps(obj)] with the default arguments: [ensure_ascii=True],
    item separator [', '] and key separator [': ']. *)
Fixpoint json_dumps (v : json) : str :=
  match v with
  | JNull => txt "null"
  | JBool true => txt "true"
  | JBool false => txt "false"
  | JInt z => int_repr z
  | JFloat f => floatstr f
  | JStr s => encode_basestring_ascii s
  | JList l => LBRACKET :: join_items (map json_dumps l) ++ [RBRACKET]
  | JDict d =>
      LBRACE ::
        join_items
          (map (fun kv => encode_basestring_ascii (fst kv)
                            ++ COLON :: SPACE :: json_dumps (snd kv)) d)
        ++ [RBRACE]
  end.

(** *** [json.loads] *)

(** [BACKSLASH] of [json.decoder]: the character a one-letter escape
    stands for. *)
Definition BACKSLASH (esc : N) : option N :=
  if esc =? QUOTE then Some QUOTE
  else if esc =? BACKSLASH_CHAR then Some BACKSLASH_CHAR
  else if esc =? 47 then Some 47
  else if esc =? 98 then Some 8
  else if esc =? 102 then Some 12
  else if esc =? 110 then Some 10
  else if esc =? 114 then Some 13
  else if esc =? 116 then Some 9
  else None.

(** The value of a hexadecimal digit, [0-9A-Fa-f]. *)
Definition hexval (c : N) : option N :=
  if (48 <=? c) && (c <=? 57) then Some (c - 48)
  else if (97 <=? c) && (c <=? 102) then Some (c - 87)
  else if (65 <=? c) && (c <=? 70) then Some (c - 55)
  else None.

(** The four hexadecimal digits of an escape, [s] being the text after the
    [u]: their value and the text after them.  The scanner of the [json]
    module (the one in C, which [json.loads] uses) wants a character after
    the digits; a text that ends with them is an invalid escape, not an
    unterminated string. *)
Definition decode_uXXXX (s : str) : result (N * str) :=
  match s with
  | a :: b :: c :: d :: (_ :: _) as r =>
      match hexval a, hexval b, hexval c, hexval d with
      | Some a, Some b, Some c, Some d =>
          Ok (((a * 16 + b) * 16 + c) * 16 + d, r)
      | _, _, _, _ => Raise (JSONDecodeError "Invalid \uXXXX escape")
      end
  | _ => Raise (JSONDecodeError "Invalid \uXXXX escape")
  end.

(** [s[idx:idx + len(prefix)] == prefix]; the text after the prefix. *)
Fixpoint strip_prefix (prefix s : str) : option str :=
  match prefix, s with
  | [], _ => Some s
  | p :: prefix', c :: s' => if p =? c then strip_prefix prefix' s' else None
  | _ :: _, [] => None
  end.

Definition is_high_surrogate (n : N) : bool := (55296 <=? n) && (n <=? 56319).
Definition is_low_surrogate (n : N) : bool := (56320 <=? n) && (n <=? 57343).

(** The loop of [py_scanstring] in strict mode, one character of the text
    at a time: [chunks] is what has been decoded so far, [s] the text after
    it.  The result is the string and the text after its closing quote.
    [n] bounds the number of rounds; [scanstring] gives it the length of
    the text, which is enough since every round reads at least one
    character. *)
Fixpoint scanstring_loop (n : nat) (chunks : str) (s : str)
  : result (str * str) :=
  match n with
  | O => Raise (JSONDecodeError "Unterminated string starting at")
  | S n' =>
    match s with
    | [] => Raise (JSONDecodeError "Unterminated string starting at")
    | c :: r =>
      if c =? QUOTE then Ok (chunks, r)
      else if c =? BACKSLASH_CHAR then
        match r with
        | [] => Raise (JSONDecodeError "Unterminated string starting at")
        | esc :: r1 =>
          if esc =? 117 then
            match decode_uXXXX r1 with
            | Raise e => Raise e
            | Ok (uni, r2) =>
              if is_high_surrogate uni then
                match strip_prefix [BACKSLASH_CHAR; 117] r2 with
                | Some r3 =>
                  match decode_uXXXX r3 with
                  | Raise e => Raise e
                  | Ok (uni2, r4) =>
                    if is_low_surrogate uni2 then
                      scanstring_loop n'
                        (chunks ++
                           [65536 + N.lor (N.shiftl (uni - 55296) 10)
                                          (uni2 - 56320)])
                        r4
                    else scanstring_loop n' (chunks ++ [uni]) r2
                  end
                | None => scanstring_loop n' (chunks ++ [uni]) r2
                end
              else scanstring_loop n' (chunks ++ [uni]) r2
            end
          else
            match BACKSLASH esc with
            | Some char => scanstring_loop n' (chunks ++ [char]) r1
            | None => Raise (JSONDecodeError "Invalid \escape")
            end
        end
      else if c <? 32 then
        Raise (JSONDecodeError "Invalid control character at")
      else scanstring_loop n' (chunks ++ [c]) r
    end
  end.

(** [scanstring(s, end)], [s] being the text after the opening quote. *)
Definition scanstring (s : str) : result (str * str) :=
  scanstring_loop (List.length s) [] s.

(** The digit a character stands for, as the constructor of [Decimal.uint]
    that adds it in front. *)
Definition digit_of (c : N) : option (Decimal.uint -> Decimal.uint) :=
  if c =? 48 then Some Decimal.D0
  else if c =? 49 then Some Decimal.D1
  else if c =? 50 then Some Decimal.D2
  else if c =? 51 then Some Decimal.D3
  else if c =? 52 then Some Decimal.D4
  else if c =? 53 then Some Decimal.D5
  else if c =? 54 then Some Decimal.D6
  else if c =? 55 then Some Decimal.D7
  else if c =? 56 then Some Decimal.D8
  else if c =? 57 then Some Decimal.D9
  else None.

Definition is_digit (c : N) : bool := (48 <=? c) && (c <=? 57).

(** The longest run of digits at the head of the text, and the text after
    it: the greedy run of [[0-9]] of [NUMBER_RE]. *)
Fixpoint scan_digits (s : str) : Decimal.uint * str :=
  match s with
  | c :: r =>
      match digit_of c with
      | Some k => let (d, r') := scan_digits r in (k d, r')
      | None => (Decimal.Nil, s)
      end
  | [] => (Decimal.Nil, [])
  end.

(** The alternative [0|[1-9][0-9]*] of [NUMBER_RE]: a lone zero, or a
    digit other than zero and the digits after it. *)
Definition match_digits (s : str) : option (Decimal.uint * str) :=
  match s with
  | c :: r =>
      if c =? 48 then Some (Decimal.D0 Decimal.Nil, r)
      else
        match digit_of c with
        | Some k => let (d, r') := scan_digits r in Some (k d, r')
        | None => None
        end
  | [] => None
  end.

(** The first group of [NUMBER_RE], the integer part: an optional minus
    sign and the digits. *)
Definition match_integer (s : str) : option (Decimal.signed_int * str) :=
  match s with
  | c :: r =>
      if c =? MINUS then
        match match_digits r with
        | Some (d, r') => Some (Decimal.Neg d, r')
        | None => None
        end
      else
        match match_digits s with
        | Some (d, r') => Some (Decimal.Pos d, r')
        | None => None
        end
  | [] => None
  end.

(** The second group of [NUMBER_RE], a dot and one digit or more: the text
    after the fraction, if there is one. *)
Definition match_frac (s : str) : option str :=
  match s with
  | 46 :: c :: r => if is_digit c then Some (snd (scan_digits r)) else None
  | _ => None
  end.

(** The third group of [NUMBER_RE], [e] or [E], an optional sign and one
    digit or more: the text after the exponent, if there is one. *)
Definition match_exp (s : str) : option str :=
  match s with
  | e :: r =>
      if (e =? 101) || (e =? 69) then
        let r' := match r with
                  | sg :: r1 => if (sg =? 45) || (sg =? 43) then r1 else r
                  | [] => r
                  end in
        match r' with
        | c :: r2 => if is_digit c then Some (snd (scan_digits r2)) else None
        | [] => None
        end
      else None
  | [] => None
  end.

(** [NUMBER_RE.match(s, idx)]: the integer part, whether a fraction or an
    exponent follows it, and the text after the whole match. *)
Definition match_number (s : str)
  : option (Decimal.signed_int * bool * str) :=
  match match_integer s with
  | None => None
  | Some (integer, r) =>
      match match_frac r with
      | Some r1 =>
          match match_exp r1 with
          | Some r2 => Some (integer, true, r2)
          | None => Some (integer, true, r1)
          end
      | None =>
          match match_exp r with
          | Some r2 => Some (integer, true, r2)
          | None => Some (integer, false, r)
          end
      end
  end.

(** What [_scan_once] does with the match: an integer goes through [int];
    with a fraction or an exponent the matched text,
    [integer + (frac or '') + (exp or '')], goes through [float]. *)
Definition scan_number (s : str) : option (json * str) :=
  match match_number s with
  | None => None
  | Some (integer, false, r) => Some (JInt (Z.of_int integer), r)
  | Some (_, true, r) =>
      Some (JFloat
              (float_of_str (firstn (List.length s - List.length r)%nat s)), r)
  end.

(** [a == b] for two [str]. *)
Fixpoint str_eqb (a b : str) : bool :=
  match a, b with
  | [], [] => true
  | x :: a', y :: b' => (x =? y) && str_eqb a' b'
  | _, _ => false
  end.

(** [d[key] = value] on a [dict]: the value of a key that is there is
    replaced where it stands, a new key goes to the end. *)
Fixpoint dict_set {V : Type} (d : list (str * V)) (key : str) (value : V)
  : list (str * V) :=
  match d with
  | [] => [(key, value)]
  | (k, v) :: d' =>
      if str_eqb k key then (k, value) :: d'
      else (k, v) :: dict_set d' key value
  end.

(** [dict(pairs)] *)
Definition dict_of_pairs {V : Type} (pairs : list (str * V))
  : list (str * V) :=
  fold_left (fun d kv => dict_set d (fst kv) (snd kv)) pairs [].

(** The [while True] loop of [JSONArray]: [values] is the list built so
    far, [s] the text where the next value starts. *)
Fixpoint JSONArray_loop (scan_once : str -> result (json * str))
    (n : nat) (values : list json) (s : str) : result (json * str) :=
  match n with
  | O => Raise RecursionError
  | S n' =>
    match scan_once s with
    | Raise StopIteration => Raise (JSONDecodeError "Expecting value")
    | Raise e => Raise e
    | Ok (value, s1) =>
      match skip_ws s1 with
      | c :: r =>
          if c =? RBRACKET then Ok (JList (values ++ [value]), r)
          else if c =? COMMA then
            JSONArray_loop scan_once n' (values ++ [value]) (skip_ws r)
          else Raise (JSONDecodeError "Expecting ',' delimiter")
      | [] => Raise (JSONDecodeError "Expecting ',' delimiter")
      end
    end
  end.

(** [JSONArray((s, end), scan_once)], [s] being the text after the opening
    bracket. *)
Definition JSONArray (scan_once : str -> result (json * str))
    (n : nat) (s : str) : result (json * str) :=
  match skip_ws s with
  | c :: r =>
      if c =? RBRACKET then Ok (JList [], r)
      else JSONArray_loop scan_once n [] (skip_ws s)
  | [] => JSONArray_loop scan_once n [] []
  end.

(** The [while True] loop of [JSONObject]: [pairs] is the list of pairs
    read so far, [s] the text after the opening quote of the next key. *)
Fixpoint JSONObject_loop (scan_once : str -> result (json * str))
    (n : nat) (pairs : list (str * json)) (s : str) : result (json * str) :=
  match n with
  | O => Raise RecursionError
  | S n' =>
    match scanstring s with
    | Raise e => Raise e
    | Ok (key, s1) =>
      match skip_ws s1 with
      | c :: r =>
        if c =? COLON then
          match scan_once (skip_ws r) with
          | Raise StopIteration => Raise (JSONDecodeError "Expecting value")
          | Raise e => Raise e
          | Ok (value, s2) =>
            match skip_ws s2 with
            | c' :: r' =>
              if c' =? RBRACE then
                Ok (JDict (dict_of_pairs (pairs ++ [(key, value)])), r')
              else if c' =? COMMA then
                match skip_ws r' with
                | q :: r'' =>
                  if q =? QUOTE then
                    JSONObject_loop scan_once n' (pairs ++ [(key, value)]) r''
                  else
                    Raise (JSONDecodeError
                      "Expecting property name enclosed in double quotes")
                | [] =>
                    Raise (JSONDecodeError
                      "Expecting property name enclosed in double quotes")
                end
              else Raise (JSONDecodeError "Expecting ',' delimiter")
            | [] => Raise (JSONDecodeError "Expecting ',' delimiter")
            end
          end
        else Raise (JSONDecodeError "Expecting ':' delimiter")
      | [] => Raise (JSONDecodeError "Expecting ':' delimiter")
      end
    end
  end.

(** [JSONObject((s, end), strict, scan_once, ...)] with no hooks, [s] being
    the text after the opening brace. *)
Definition JSONObject (scan_once : str -> result (json * str))
    (n : nat) (s : str) : result (json * str) :=
  match skip_ws s with
  | c :: r =>
      if c =? QUOTE then JSONObject_loop scan_once n [] r
      else if c =? RBRACE then Ok (JDict [], r)
      else
        Raise (JSONDecodeError
          "Expecting property name enclosed in double quotes")
  | [] =>
      Raise (JSONDecodeError
        "Expecting property name enclosed in double quotes")
  end.

(** [_scan_once(string, idx)], [s] being the text from [idx].  [fuel]
    bounds the nesting of arrays and objects and the number of items of
    each; [decode] gives it more than the length of the text, which neither
    can reach.  (The recursion limit of the Python interpreter, which a
    text nested some thousand levels deep runs into, is not modelled.) *)
Fixpoint scan_once (fuel : nat) (s : str) : result (json * str) :=
  match fuel with
  | O => Raise RecursionError
  | S f =>
    match s with
    | [] => Raise StopIteration
    | nextchar :: r =>
      if nextchar =? QUOTE then
        match scanstring r with
        | Ok (v, r') => Ok (JStr v, r')
        | Raise e => Raise e
        end
      else if nextchar =? LBRACE then JSONObject (scan_once f) f r
      else if nextchar =? LBRACKET then JSONArray (scan_once f) f r
      else
        match strip_prefix (txt "null") s,
              strip_prefix (txt "true") s,
              strip_prefix (txt "false") s with
        | Some r', _, _ => Ok (JNull, r')
        | _, Some r', _ => Ok (JBool true, r')
        | _, _, Some r' => Ok (JBool false, r')
        | None, None, None =>
          match scan_number s with
          | Some (number, r') => Ok (number, r')
          | None =>
            match strip_prefix (txt "NaN") s,
                  strip_prefix (txt "Infinity") s,
                  strip_prefix (txt "-Infinity") s with
            | Some r', _, _ => Ok (JFloat float_nan, r')
            | _, Some r', _ => Ok (JFloat float_inf, r')
            | _, _, Some r' => Ok (JFloat float_neginf, r')
            | None, None, None => Raise StopIteration
            end
          end
        end
    end
  end.

(** [JSONDecoder.decode(s)]: one value between optional white space, and
    nothing after it. *)
Definition decode (s : str) : result json :=
  match scan_once (S (List.length s)) (skip_ws s) with
  | Raise StopIteration => Raise (JSONDecodeError "Expecting value")
  | Raise e => Raise e
  | Ok (obj, r) =>
      match skip_ws r with
      | [] => Ok obj
      | _ :: _ => Raise (JSONDecodeError "Extra data")
      end
  end.

(** [json.loads(s)] for a [str]: a byte order mark at the start is
    refused. *)
Definition json_loads (s : str) : result json :=
  match strip_prefix [65279] s with
  | Some _ =>
      Raise (JSONDecodeError "Unexpected UTF-8 BOM (decode using utf-8-sig)")
  | None => decode s
  end.

End WithFloats.

End Json.

Import Json.

Section World.
Context {F : PyFloat}.

(** ** Events, the world and the monad of the consumers *)

(** The scalar values an event carries as close code: [None], a [bool] or
    an [int]. *)
Inductive pyval : Type :=
| PyNone
| PyBool (b : bool)
| PyInt (z : Z).

(** [if v:] *)
Definition truthy (v : pyval) : bool :=
  match v with
  | PyNone => false
  | PyBool b => b
  | PyInt z => negb (z =? 0)%Z
  end.

(** [v is not None] *)
Definition is_not_None (v : pyval) : bool :=
  match v with
  | PyNone => false
  | _ => true
  end.

(** [v is not True] *)
Definition is_not_True (v : pyval) : bool :=
  match v with
  | PyBool true => false
  | _ => true
  end.

(** An event dictionary.  [msg_type] is the value of its ["type"] key; each
    other field is [None] when the dictionary has no such key.  The value
    under ["text"] or ["bytes"] may itself be Python's [None]. *)
Record message : Type := Message {
  msg_type : string;
  msg_text : option (option str);
  msg_bytes : option (option bytes);
  msg_code : option pyval
}.

(** A call received by the channel layer. *)
Inductive layer_call : Type :=
| group_add_call (group channel : str)
| group_discard_call (group channel : str).

(** Everything outside the consumer that its methods act on. *)
Record world : Type := World {
  (** the events handed to the transport, oldest first *)
  outbound : list message;
  (** the group calls the channel layer has received, oldest first *)
  layer_calls : list layer_call;
  (** demultiplexer: the streams that have a running child, oldest first *)
  children : list json;
  (** demultiplexer: the events dispatched to the children, oldest first,
      each with the stream of the child it went to *)
  upstream : list (json * message);
  (** the calls of [asyncio.wait], oldest first: the tasks waited for (each
      named by the stream of its child) and the timeout *)
  waits : list (list json * Z);
  (** the scheduler: whether the task of the child of a stream is done
      within a timeout *)
  finishes : json -> Z -> bool
}.

Definition emit (m : message) (w : world) : world :=
  World (outbound w ++ [m]) (layer_calls w) (children w) (upstream w)
        (waits w) (finishes w).

Definition record_calls (cs : list layer_call) (w : world) : world :=
  World (outbound w) (layer_calls w ++ cs) (children w) (upstream w)
        (waits w) (finishes w).

(** A method: from a world to a value or an exception, and the world it
    leaves. *)
Definition M (A : Type) : Type := world -> result A * world.

Definition ret {A : Type} (a : A) : M A := fun w => (Ok a, w).

Definition raise {A : Type} (e : exn) : M A := fun w => (Raise e, w).

Definition bind {A B : Type} (m : M A) (k : A -> M B) : M B :=
  fun w =>
    match m w with
    | (Ok a, w') => k a w'
    | (Raise e, w') => (Raise e, w')
    end.

End World.

Notation "x <- m ;; k" := (bind m (fun x => k))
  (at level 61, m at next level, right associativity).

Notation "m ;; k" := (bind m (fun _ => k))
  (at level 61, right associativity).

Section Methods.
Context {F : PyFloat}.

(** A pure computation that may raise. *)
Definition lift {A : Type} (r : result A) : M A := fun w => (r, w).

(** [try: body / except ...: ...]: [handler] gives the clause that catches
    an exception, if one does. *)
Definition try_except {A : Type} (body : M A) (handler : exn -> option (M A))
  : M A :=
  fun w =>
    match body w with
    | (Ok a, w') => (Ok a, w')
    | (Raise e, w') =>
        match handler e with
        | Some h => h w'
        | None => (Raise e, w')
        end
    end.

(** [for x in l: body(x)] *)
Fixpoint for_each {A : Type} (l : list A) (body : A -> M unit) : M unit :=
  match l with
  | [] => ret tt
  | x :: l' => body x ;; for_each l' body
  end.

(** Modelled from the spec: the consumer base classes of
    [channels/consumer.py] are not among the sources.  [super().send(message)]
    of a websocket consumer is their [send], which hands the event to the
    transport through [base_send]: the event becomes the connection's next
    outbound event. *)
Definition base_send (m : message) : M unit := fun w => (Ok tt, emit m w).

(** ** The channel layer *)

(** [self.channel_layer]: [None] when no layer is configured, else a layer
    that has the group methods or not. *)
Inductive channel_layer : Type :=
| NoLayer
| Layer (groups_extension : bool).

End Methods.

Module ChannelLayer.

Section WithFloats.
Context {F : PyFloat}.

(** Modelled from the spec: the channel layers are not among the sources.
    [layer.group_add] is the attribute lookup: it raises [AttributeError]
    on [None] and on a layer without the group methods, and gives the method
    otherwise; the method called on a group and a channel name reaches the
    layer. *)
Definition group_add (layer : channel_layer) : M (str -> str -> M unit) :=
  match layer with
  | Layer true =>
      ret (fun group channel w =>
             (Ok tt, record_calls [group_add_call group channel] w))
  | _ => raise (AttributeError "group_add")
  end.

(** Modelled from the spec: as [group_add], for [layer.group_discard]. *)
Definition group_discard (layer : channel_layer) : M (str -> str -> M unit) :=
  match layer with
  | Layer true =>
      ret (fun group channel w =>
             (Ok tt, record_calls [group_discard_call group channel] w))
  | _ => raise (AttributeError "group_discard")
  end.

End WithFloats.

End ChannelLayer.

Section Consumers.
Context {F : PyFloat}.

(** ** Consumers *)

(** A consumer instance as an event method finds it: the attribute
    [groups], what the base class gives it, and the methods an application
    overrides.  [groups] is a list of the class that the application can
    change while the consumer runs; the record is the object as it is when
    the method runs, and a statement about two events in which the object
    may have changed takes a record for each. *)
Record consumer : Type := Consumer {
  groups : list str;
  the_channel_layer : channel_layer;
  channel_name : str;
  connect : M unit;
  receive : option str -> option bytes -> M unit;
  disconnect : pyval -> M unit
}.

(** [message["text"]], [message["bytes"]], [message["code"]] *)
Definition getitem {A : Type} (field : option A) (key : string) : M A :=
  match field with
  | Some v => ret v
  | None => raise (KeyError key)
  end.

(** [message.get("text")] *)
Definition get_text (m : message) : option str :=
  match msg_text m with
  | Some v => v
  | None => None
  end.

(** *** [class WebsocketConsumer(SyncConsumer)] *)

End Consumers.

Module WebsocketConsumer.

Section WithFloats.
Context {F : PyFloat}.

Definition accept : M unit :=
  base_send (Message "websocket.accept" None None None).

Definition close (code : pyval) : M unit :=
  if is_not_None code && is_not_True code then
    base_send (Message "websocket.close" None None (Some code))
  else
    base_send (Message "websocket.close" None None None).

Definition send (text_data : option str) (bytes_data : option bytes)
    (close_ : pyval) : M unit :=
  match text_data, bytes_data with
  | Some _, _ =>
      base_send (Message "websocket.send" (Some text_data) None None)
  | None, Some _ =>
      base_send (Message "websocket.send" None (Some bytes_data) None)
  | None, None =>
      raise (ValueError "You must pass one of bytes_data or text_data")
  end ;;
  if truthy close_ then close close_ else ret tt.

(** The [connect] of the class, for an application that does not override
    it. *)
Definition default_connect : M unit := accept.

(** The [receive] of the class. *)
Definition default_receive (text_data : option str)
    (bytes_data : option bytes) : M unit := ret tt.

(** The [disconnect] of the class. *)
Definition default_disconnect (code : pyval) : M unit := ret tt.

Definition websocket_connect (self : consumer) (message : message) : M unit :=
  try_except
    (for_each (groups self) (fun group =>
       group_add <- ChannelLayer.group_add (the_channel_layer self) ;;
       group_add group (channel_name self)))
    (fun e =>
       match e with
       | AttributeError _ =>
           Some (raise (InvalidChannelLayerError
                   "BACKEND is unconfigured or doesn't support groups"))
       | _ => None
       end) ;;
  try_except (connect self)
    (fun e =>
       match e with
       | AcceptConnection => Some accept
       | DenyConnection => Some (close PyNone)
       | _ => None
       end).

Definition websocket_receive (self : consumer) (message : message) : M unit :=
  match msg_text message with
  | Some text => receive self text None
  | None =>
      b <- getitem (msg_bytes message) "bytes" ;;
      receive self None b
  end.

Definition websocket_disconnect (self : consumer) (message : message)
  : M unit :=
  try_except
    (for_each (groups self) (fun group =>
       group_discard <- ChannelLayer.group_discard (the_channel_layer self) ;;
       group_discard group (channel_name self)))
    (fun e =>
       match e with
       | AttributeError _ =>
           Some (raise (InvalidChannelLayerError
                   "BACKEND is unconfigured or doesn't support groups"))
       | _ => None
       end) ;;
  code <- getitem (msg_code message) "code" ;;
  disconnect self code ;;
  raise StopConsumer.

End WithFloats.

End WebsocketConsumer.

(** *** [class JsonWebsocketConsumer(WebsocketConsumer)] *)

Module JsonWebsocketConsumer.

Section WithFloats.
Context {F : PyFloat}.

(** [json.loads(text_data)]; a [text_data] that is [None] is no [str]. *)
Definition decode_json (text_data : option str) : result json :=
  match text_data with
  | Some s => json_loads s
  | None =>
      Raise (TypeError
        "the JSON object must be str, bytes or bytearray, not NoneType")
  end.

Definition encode_json (content : json) : str := json_dumps content.

(** [if text_data:] for a [str] or [None] *)
Definition truthy_text (text_data : option str) : bool :=
  match text_data with
  | Some (_ :: _) => true
  | _ => false
  end.

(** [receive], with the [receive_json] of the instance. *)
Definition receive (receive_json : json -> M unit)
    (text_data : option str) (bytes_data : option bytes) : M unit :=
  if truthy_text text_data then
    content <- lift (decode_json text_data) ;;
    receive_json content
  else raise (ValueError "No text section for incoming WebSocket frame!").

(** The [receive_json] of the class. *)
Definition default_receive_json (content : json) : M unit := ret tt.

Definition send_json (content : json) (close_ : pyval) : M unit :=
  WebsocketConsumer.send (Some (encode_json content)) None close_.

End WithFloats.

End JsonWebsocketConsumer.

(** *** [class AsyncWebsocketConsumer(AsyncConsumer)]

    The asynchronous consumers: every [await] is a sequencing point of the
    one task that drives the connection, so that a coroutine is a method of
    the same monad. *)

Module AsyncWebsocketConsumer.

Section WithFloats.
Context {F : PyFloat}.

Definition accept : M unit :=
  base_send (Message "websocket.accept" None None None).

Definition close (code : pyval) : M unit :=
  if is_not_None code && is_not_True code then
    base_send (Message "websocket.close" None None (Some code))
  else
    base_send (Message "websocket.close" None None None).

Definition send (text_data : option str) (bytes_data : option bytes)
    (close_ : pyval) : M unit :=
  match text_data, bytes_data with
  | Some _, _ =>
      base_send (Message "websocket.send" (Some text_data) None None)
  | None, Some _ =>
      base_send (Message "websocket.send" None (Some bytes_data) None)
  | None, None =>
      raise (ValueError "You must pass one of bytes_data or text_data")
  end ;;
  if truthy close_ then close close_ else ret tt.

Definition default_connect : M unit := accept.

Definition default_receive (text_data : option str)
    (bytes_data : option bytes) : M unit := ret tt.

Definition default_disconnect (code : pyval) : M unit := ret tt.

Definition websocket_connect (self : consumer) (message : message) : M unit :=
  try_except
    (for_each (groups self) (fun group =>
       group_add <- ChannelLayer.group_add (the_channel_layer self) ;;
       group_add group (channel_name self)))
    (fun e =>
       match e with
       | AttributeError _ =>
           Some (raise (InvalidChannelLayerError
                   "BACKEND is unconfigured or doesn't support groups"))
       | _ => None
       end) ;;
  try_except (connect self)
    (fun e =>
       match e with
       | AcceptConnection => Some accept
       | DenyConnection => Some (close PyNone)
       | _ => None
       end).

Definition websocket_receive (self : consumer) (message : message) : M unit :=
  match msg_text message with
  | Some text => receive self text None
  | None =>
      b <- getitem (msg_bytes message) "bytes" ;;
      receive self None b
  end.

Definition websocket_disconnect (self : consumer) (message : message)
  : M unit :=
  try_except
    (for_each (groups self) (fun group =>
       group_discard <- ChannelLayer.group_discard (the_channel_layer self) ;;
       group_discard group (channel_name self)))
    (fun e =>
       match e with
       | AttributeError _ =>
           Some (raise (InvalidChannelLayerError
                   "BACKEND is unconfigured or doesn't support groups"))
       | _ => None
       end) ;;
  code <- getitem (msg_code message) "code" ;;
  disconnect self code ;;
  raise StopConsumer.

End WithFloats.

End AsyncWebsocketConsumer.

(** *** [class AsyncJsonWebsocketConsumer(AsyncWebsocketConsumer)] *)

Module AsyncJsonWebsocketConsumer.

Section WithFloats.
Context {F : PyFloat}.

Definition decode_json (text_data : option str) : result json :=
  match text_data with
  | Some s => json_loads s
  | None =>
      Raise (TypeError
        "the JSON object must be str, bytes or bytearray, not NoneType")
  end.

Definition encode_json (content : json) : str := json_dumps content.

Definition receive (receive_json : json -> M unit)
    (text_data : option str) (bytes_data : option bytes) : M unit :=
  if JsonWebsocketConsumer.truthy_text text_data then
    content <- lift (decode_json text_data) ;;
    receive_json content
  else raise (ValueError "No text section for incoming WebSocket frame!").

Definition default_receive_json (content : json) : M unit := ret tt.

Definition send_json (content : json) (close_ : pyval) : M unit :=
  text_data <- ret (encode_json content) ;;
  AsyncWebsocketConsumer.send (Some text_data) None close_.

End WithFloats.

End AsyncJsonWebsocketConsumer.

Section Streams.
Context {F : PyFloat}.

(** ** The demultiplexer *)

(** Equality of JSON values, for the streams of the child registry. *)
Fixpoint json_eqb (a b : json) : bool :=
  match a, b with
  | JNull, JNull => true
  | JBool x, JBool y => Bool.eqb x y
  | JInt x, JInt y => (x =? y)%Z
  | JFloat x, JFloat y => float_eqb x y
  | JFloat x, JInt y => float_eq_int x y
  | JInt x, JFloat y => float_eq_int y x
  | JStr x, JStr y => str_eqb x y
  | JList l, JList m =>
      (fix all (l m : list json) : bool :=
         match l, m with
         | [], [] => true
         | x :: l', y :: m' => json_eqb x y && all l' m'
         | _, _ => false
         end) l m
  | JDict d, JDict e =>
      (fix all (d e : list (str * json)) : bool :=
         match d, e with
         | [], [] => true
         | (k, x) :: d', (k', y) :: e' =>
             str_eqb k k' && json_eqb x y && all d' e'
         | _, _ => false
         end) d e
  | _, _ => false
  end.

End Streams.

Module asyncio.

Section WithFloats.
Context {F : PyFloat}.

(** [asyncio.wait(fs, return_when=ALL_COMPLETED, timeout=timeout)]: it
    refuses an empty collection with a [ValueError]; otherwise it returns,
    when every task is done or when the timeout has passed, the tasks that
    are done and those that are pending.  It raises nothing when the
    timeout passes. *)
Definition wait (fs : list json) (timeout : Z) : M (list json * list json) :=
  match fs with
  | [] => raise (ValueError "Set of coroutines/Futures is empty.")
  | _ :: _ =>
      fun w =>
        (Ok (partition (fun t => finishes w t timeout) fs),
         World (outbound w) (layer_calls w) (children w) (upstream w)
               (waits w ++ [(fs, timeout)]) (finishes w))
  end.

End WithFloats.

End asyncio.

(** [class Demultiplexer] of [channels/generic/multiplexer.py], which is not
    among the sources. *)

Module Demultiplexer.

Section WithFloats.
Context {F : PyFloat}.

(** Modelled from the spec: [send_upstream] is missing.  The specification
    has a valid envelope's event "dispatched to the child instance for
    [stream], spawning it on demand if not already running": the stream
    joins the running children if it is not one of them, and the event is
    the next one dispatched to its child. *)
Definition send_upstream (stream : json) (message : message) : M unit :=
  fun w =>
    (Ok tt,
     World (outbound w) (layer_calls w)
           (if existsb (json_eqb stream) (children w) then children w
            else children w ++ [stream])
           (upstream w ++ [(stream, message)])
           (waits w) (finishes w)).

(** Modelled from the spec: [send_to_all_upstream] is missing.  The
    specification has the event fanned out "to every currently-running
    child": it is dispatched to each running child, in the order of the
    registry. *)
Definition send_to_all_upstream (message : message) : M unit :=
  fun w =>
    (Ok tt,
     World (outbound w) (layer_calls w) (children w)
           (upstream w ++ map (fun stream => (stream, message)) (children w))
           (waits w) (finishes w)).

(** Modelled from the spec: [self._child_application_tasks.values()], the
    task handles of the child registry, one for each running child. *)
Definition child_application_tasks : M (list json) :=
  fun w => (Ok (children w), w).

End WithFloats.

End Demultiplexer.

(** *** [class AsyncJsonWebsocketDemultiplexer(Demultiplexer,
        AsyncJsonWebsocketConsumer)] *)

Module AsyncJsonWebsocketDemultiplexer.

Section WithFloats.
Context {F : PyFloat}.

Definition application_close_timeout : Z := 5.

Definition websocket_connect (self : consumer) (message : message) : M unit :=
  base_send (Message "websocket.accept" None None None) ;;
  Demultiplexer.send_to_all_upstream message.

(** [key in content] for a [dict] *)
Definition contains (d : list (str * json)) (key : str) : bool :=
  existsb (fun kv => str_eqb (fst kv) key) d.

(** [content[key]] for a [dict] *)
Fixpoint lookup (d : list (str * json)) (key : str) : M json :=
  match d with
  | [] => raise (KeyError "key")
  | (k, v) :: d' => if str_eqb k key then ret v else lookup d' key
  end.

Definition receive_json (content : json) : M unit :=
  match content with
  | JDict d =>
      if contains d (txt "stream") && contains d (txt "payload") then
        stream <- lookup d (txt "stream") ;;
        payload <- lookup d (txt "payload") ;;
        text <- ret (AsyncJsonWebsocketConsumer.encode_json payload) ;;
        Demultiplexer.send_upstream stream
          (Message "websocket.receive" (Some (Some text)) None None)
      else
        raise (ValueError
          "Invalid multiplexed **frame received (no channel/payload key)")
  | _ =>
      raise (ValueError
        "Invalid multiplexed **frame received (no channel/payload key)")
  end.

(** The [receive] the class inherits, with its own [receive_json]. *)
Definition receive (text_data : option str) (bytes_data : option bytes)
  : M unit :=
  AsyncJsonWebsocketConsumer.receive receive_json text_data bytes_data.

Definition websocket_send (message : message) (stream_name : str) : M unit :=
  let text := get_text message in
  json <- lift (AsyncJsonWebsocketConsumer.decode_json text) ;;
  let data := JDict [(txt "stream", JStr stream_name);
                     (txt "payload", json)] in
  AsyncJsonWebsocketConsumer.send_json data (PyBool false).

Definition websocket_accept (message : message) (stream_name : str)
  : M unit := ret tt.

Definition websocket_disconnect (self : consumer) (message : message)
  : M unit :=
  Demultiplexer.send_to_all_upstream message ;;
  try_except
    (tasks <- Demultiplexer.child_application_tasks ;;
     asyncio.wait tasks application_close_timeout ;;
     ret tt)
    (fun e =>
       match e with
       | TimeoutError => Some (ret tt)
       | _ => None
       end) ;;
  AsyncWebsocketConsumer.websocket_disconnect self message.

End WithFloats.

End AsyncJsonWebsocketDemultiplexer.

Section Statements.
Context {F : PyFloat}.

(** ** Predicates of the statements *)

(** A string [json.dumps] and [json.loads] carry unchanged: code points of
    Unicode, and no high surrogate directly before a low one (the escapes of
    such a pair read back as one character). *)
Fixpoint well_formed_str (s : str) : bool :=
  match s with
  | [] => true
  | c :: r =>
      (c <? 1114112)
      && negb (is_high_surrogate c
               && match r with
                  | c' :: _ => is_low_surrogate c'
                  | [] => false
                  end)
      && well_formed_str r
  end.

Fixpoint distinct_keys (ks : list str) : bool :=
  match ks with
  | [] => true
  | k :: r => negb (existsb (str_eqb k) r) && distinct_keys r
  end.

(** The JSON values proper: the keys of a [dict] are pairwise distinct and
    every string is well formed. *)
Fixpoint representable (v : json) : bool :=
  match v with
  | JNull | JBool _ | JInt _ | JFloat _ => true
  | JStr s => well_formed_str s
  | JList l => forallb representable l
  | JDict d =>
      distinct_keys (map fst d)
      && forallb (fun kv => well_formed_str (fst kv) && representable (snd kv))
                 d
  end.

(** A text of Unicode scalar values: code points that are no surrogates. *)
Definition unicode_text (t : str) : bool :=
  forallb (fun c => (c <? 1114112)
                    && negb (is_high_surrogate c || is_low_surrogate c)) t.

(** An envelope of the demultiplexer: an object that has the keys
    ["stream"] and ["payload"]. *)
Definition is_envelope (content : json) : Prop :=
  exists d, content = JDict d
            /\ In (txt "stream") (map fst d)
            /\ In (txt "payload") (map fst d).

(** The events a method adds to the outbound events of a world. *)
Definition emitted_by {A : Type} (m : M A) (w : world) : list message :=
  skipn (List.length (outbound w)) (outbound (snd (m w))).

Definition is_send (m : message) : bool :=
  String.eqb (msg_type m) "websocket.send".

(** The handler of the second [try] statement of [websocket_connect],
    around the [connect] of the application. *)
Definition on_connect_signal (accept : M unit) (close : pyval -> M unit)
    (e : exn) : option (M unit) :=
  match e with
  | AcceptConnection => Some accept
  | DenyConnection => Some (close PyNone)
  | _ => None
  end.

(** The world after the channel layer has received a call for each group
    of a consumer, in the order of [groups]. *)
Definition after_group_calls (call : str -> str -> layer_call)
    (self : consumer) (w : world) : world :=
  record_calls (map (fun group => call group (channel_name self))
                    (groups self)) w.

(** ** Instances and events of the statements *)

(** A world where nothing has happened yet and every task ends in time. *)
Definition quiet_world : world := World [] [] [] [] [] (fun _ _ => true).

Definition connect_message : message :=
  Message "websocket.connect" None None None.

Definition disconnect_message (code : Z) : message :=
  Message "websocket.disconnect" None None (Some (PyInt code)).

Definition accept_event : message :=
  Message "websocket.accept" None None None.

Definition close_event : message :=
  Message "websocket.close" None None None.

(** The [close] event [send] adds when its [close] argument is true. *)
Definition closing (close_ : pyval) : list message :=
  if truthy close_ then
    [Message "websocket.close" None None
       (if is_not_None close_ && is_not_True close_ then Some close_
        else None)]
  else [].

(** The instance of a JSON consumer: the consumer whose [receive] is the
    one of the JSON class, with the [receive_json] of the application. *)
Definition json_consumer (base : consumer) (receive_json : json -> M unit)
  : consumer :=
  Consumer (groups base) (the_channel_layer base) (channel_name base)
           (connect base)
           (JsonWebsocketConsumer.receive receive_json)
           (disconnect base).

Definition async_json_consumer (base : consumer)
    (receive_json : json -> M unit) : consumer :=
  Consumer (groups base) (the_channel_layer base) (channel_name base)
           (connect base)
           (AsyncJsonWebsocketConsumer.receive receive_json)
           (disconnect base).

(** The instance of a demultiplexer: its [receive] is the one of the JSON
    class with the [receive_json] of the demultiplexer. *)
Definition demultiplexer (base : consumer) : consumer :=
  Consumer (groups base) (the_channel_layer base) (channel_name base)
           (connect base)
           AsyncJsonWebsocketDemultiplexer.receive
           (disconnect base).

(** The event the demultiplexer dispatches to a child: the [payload],
    encoded, as the text of a [websocket.receive]. *)
Definition child_receive (payload : json) : message :=
  Message "websocket.receive"
          (Some (Some (AsyncJsonWebsocketConsumer.encode_json payload)))
          None None.

(** The event the demultiplexer sends for a child: the envelope of the
    stream name and the value, encoded, as the text of a
    [websocket.send]. *)
Definition enveloped_send (stream_name : str) (value : json) : message :=
  Message "websocket.send"
          (Some (Some (AsyncJsonWebsocketConsumer.encode_json
                         (JDict [(txt "stream", JStr stream_name);
                                 (txt "payload", value)]))))
          None None.

(** A consumer for the examples: one group, a layer with the group methods
    and the methods of the class. *)
Definition chat_consumer : consumer :=
  Consumer [txt "chat"] (Layer true) (txt "specific.channel!1")
           WebsocketConsumer.default_connect
           WebsocketConsumer.default_receive
           WebsocketConsumer.default_disconnect.

(** A consumer whose [connect] returns without accepting or denying. *)
Definition silent_consumer : consumer :=
  Consumer [] NoLayer (txt "specific.channel!2")
           (ret tt)
           WebsocketConsumer.default_receive
           WebsocketConsumer.default_disconnect.

(** A consumer whose [connect] raises the accept signal. *)
Definition signalling_consumer : consumer :=
  Consumer [txt "chat"] (Layer true) (txt "specific.channel!4")
           (raise AcceptConnection)
           WebsocketConsumer.default_receive
           WebsocketConsumer.default_disconnect.

(** A consumer with a group and no channel layer. *)
Definition unconfigured_consumer : consumer :=
  Consumer [txt "chat"] NoLayer (txt "specific.channel!3")
           WebsocketConsumer.default_connect
           WebsocketConsumer.default_receive
           WebsocketConsumer.default_disconnect.

(** The envelope of the specification's example. *)
Definition example_envelope : json :=
  JDict [(txt "stream", JStr (txt "a"));
         (txt "payload", JDict [(txt "k", JInt 1)])].

(** The text a child sends in the specification's example. *)
Definition example_child_text : str := json_dumps (JDict [(txt "k", JInt 2)]).

(** ** Notions of the proofs about the codec *)

(** What may follow a value that [json.dumps] has written: the end of the
    text, a comma, or a closing bracket or brace. *)
Definition ends_value (rest : str) : bool :=
  match rest with
  | [] => true
  | c :: _ => (c =? 44) || (c =? 93) || (c =? 125)
  end.

(** A decimal number that starts with a digit other than zero. *)
Definition leading_digit (d : Decimal.uint) : bool :=
  match d with
  | Decimal.Nil | Decimal.D0 _ => false
  | _ => true
  end.

(** The text does not start with the escape of a low surrogate, which
    [scanstring] would join to a high surrogate before it. *)
Definition no_low_escape (X : str) : Prop :=
  match strip_prefix [92; 117] X with
  | Some r3 =>
      match decode_uXXXX r3 with
      | Ok (uni2, _) => is_low_surrogate uni2 = false
      | Raise _ => False
      end
  | None => True
  end.

(** The text starts with the escape of a low surrogate. *)
Definition escaped_low (s : str) : Prop :=
  exists r3 uni2 r4,
    strip_prefix [92; 117] s = Some r3
    /\ decode_uXXXX r3 = Ok (uni2, r4)
    /\ is_low_surrogate uni2 = true.

Definition starts_low (s : str) : bool :=
  match s with
  | c :: _ => is_low_surrogate c
  | [] => false
  end.

(** [scan_once] reads back what [json.dumps] wrote of a value, whatever
    follows it, given more fuel than there is text. *)
Definition scans_back (x : json) : Prop :=
  forall fuel rest,
    ends_value rest = true ->
    (List.length (json_dumps x ++ rest) < fuel)%nat ->
    scan_once fuel (json_dumps x ++ rest) = Ok (x, rest).

(** What [json.dumps] writes for one item of a [dict]. *)
Definition dumps_item (kv : str * json) : str :=
  encode_basestring_ascii (fst kv) ++ 58 :: 32 :: json_dumps (snd kv).

(** The text of an object after the opening quote of its first key. *)
Fixpoint object_tail (d : list (str * json)) (rest : str) : str :=
  match d with
  | [] => rest
  | kv :: d' =>
      encode_chars (fst kv) ++ 34 :: 58 :: 32 :: json_dumps (snd kv)
        ++ match d' with
           | [] => 125 :: rest
           | _ :: _ => 44 :: 32 :: 34 :: object_tail d' rest
           end
  end.

Definition representable_item (kv : str * json) : bool :=
  well_formed_str (fst kv) && representable (snd kv).

(** A scanner that, on a Unicode text, builds representable values only
    and leaves a Unicode text. *)
Definition builds_representable (scan : str -> result (json * str)) : Prop :=
  forall s v rest,
    unicode_text s = true -> scan s = Ok (v, rest) ->
    representable v = true /\ unicode_text rest = true.

(** A scanner that reads at least one character of the text. *)
Definition reads_forward (scan : str -> result (json * str)) : Prop :=
  forall s v rest,
    scan s = Ok (v, rest) -> (List.length rest < List.length s)%nat.

(** A scanner that does not run out of fuel on a text shorter than
    [bound]. *)
Definition scans_within (bound : nat) (scan : str -> result (json * str))
  : Prop :=
  forall s, (List.length s < bound)%nat -> scan s <> Raise RecursionError.

End Statements.

(** ** What the interpreter guarantees of floats

    [float.__repr__] writes a finite float as a number with a fraction or
    an exponent (['1.5'], ['1e+16'], ['2.5e-07']), which [NUMBER_RE] matches
    to its end, and [float] reads that text back as the same float; the
    tests of [floatstr] single out [float('nan')], [float('inf')] and
    [float('-inf')]. *)
Class PyFloatLaws (F : PyFloat) : Prop := {
  float_repr_number :
    forall (f : pyfloat) (rest : str),
      float_kind f = Finite -> ends_value rest = true ->
      exists integer,
        match_number (float_repr f ++ rest) = Some (integer, true, rest);
  float_of_repr :
    forall f : pyfloat,
      float_kind f = Finite -> float_of_str (float_repr f) = f;
  float_nan_only :
    forall f : pyfloat, float_kind f = NotANumber -> f = float_nan;
  float_inf_only :
    forall f : pyfloat, float_kind f = PlusInfinity -> f = float_inf;
  float_neginf_only :
    forall f : pyfloat, float_kind f = MinusInfinity -> f = float_neginf;
  float_nan_kind : float_kind float_nan = NotANumber;
  float_inf_kind : float_kind float_inf = PlusInfinity;
  float_neginf_kind : float_kind float_neginf = MinusInfinity
}.

(** The floats of the examples: those with an integral value, which
    [float.__repr__] writes with [.0] after the digits, and the three
    special ones.  They stand for the floats of the interpreter where an
    example needs some; of a text they read the integer part. *)
Inductive whole_float : Type :=
| Whole (z : Z)
| WholeNaN
| WholeInf
| WholeNegInf.

Definition whole_floats : PyFloat := {|
  pyfloat := whole_float;
  float_of_str s :=
    match match_integer s with
    | Some (integer, _) => Whole (Z.of_int integer)
    | None => WholeNaN
    end;
  float_repr o :=
    match o with
    | Whole z => int_repr z ++ txt ".0"
    | WholeNaN => txt "nan"
    | WholeInf => txt "inf"
    | WholeNegInf => txt "-inf"
    end;
  float_nan := WholeNaN;
  float_inf := WholeInf;
  float_neginf := WholeNegInf;
  float_kind o :=
    match o with
    | Whole _ => Finite
    | WholeNaN => NotANumber
    | WholeInf => PlusInfinity
    | WholeNegInf => MinusInfinity
    end;
  float_eqb a b :=
    match a, b with
    | Whole x, Whole y => (x =? y)%Z
    | WholeInf, WholeInf | WholeNegInf, WholeNegInf => true
    | _, _ => false
    end;
  float_eq_int a y :=
    match a with
    | Whole x => (x =? y)%Z
    | _ => false
    end
|}.

(** A value with floats in it: a reading of 21.0 with a tolerance of
    minus infinity up to NaN. *)
Definition example_reading : @json whole_floats :=
  JDict [(txt "t", JFloat (F := whole_floats) (Whole 21));
         (txt "range", JList [JFloat (F := whole_floats) WholeNegInf;
                              JFloat (F := whole_floats) WholeNaN])].

(** ** [channels.auth] *)

(** [d.get(key)] on a [dict] with [str] keys: the value under the key, if
    the key is there. *)
Fixpoint dict_get {V : Type} (d : list (str * V)) (key : str) : option V :=
  match d with
  | [] => None
  | (k, v) :: d' => if str_eqb k key then Some v else dict_get d' key
  end.

Module Auth.

Section WithBackend.

(** The objects of Django the middleware passes around without looking
    into them: sessions, users. *)
Variable value : Type.

(** What a scope holds under a key: an object, or the
    [SimpleLazyObject(lambda: get_user(scope))] that [AuthMiddleware] makes,
    with what it has wrapped once it has been evaluated. *)
Unset Elimination Schemes.
Inductive entry : Type :=
| Obj (v : value)
| LazyUser (wrapped : option entry).
Set Elimination Schemes.

(** The scope, a [dict] that the middleware and the lazy object share, and
    the sessions [django.contrib.auth.get_user] has been called with, oldest
    first. *)
Record state : Type := State {
  scope : list (str * entry);
  auth_calls : list entry
}.

(** [django.contrib.auth.get_user] on a request whose [session] is the given
    object: the user of the session. *)
Variable auth_get_user : entry -> value.

Definition get_user (st : state) : result entry * state :=
  let cached :=
    match dict_get (scope st) (txt "_cached_user") with
    | Some _ => Ok st
    | None =>
        match dict_get (scope st) (txt "session") with
        | None => Raise (KeyError "session")
        | Some session =>
            Ok (State (dict_set (scope st) (txt "_cached_user")
                                (Obj (auth_get_user session)))
                      (auth_calls st ++ [session]))
        end
    end in
  match cached with
  | Raise e => (Raise e, st)
  | Ok st' =>
      match dict_get (scope st') (txt "_cached_user") with
      | Some user => (Ok user, st')
      | None => (Raise (KeyError "_cached_user"), st')
      end
  end.

(** [AuthMiddleware(inner).__call__(scope)]: [inner], the application the
    middleware wraps, is given the scope. *)
Definition call {A : Type} (inner : state -> result A * state) (st : state)
  : result A * state :=
  match dict_get (scope st) (txt "session") with
  | None =>
      (Raise (ValueError
         "AuthMiddleware cannot find session in scope. SessionMiddleware must be above it."),
       st)
  | Some _ =>
      inner
        match dict_get (scope st) (txt "user") with
        | Some _ => st
        | None =>
            State (dict_set (scope st) (txt "user") (LazyUser None))
                  (auth_calls st)
        end
  end.

(** The first use of [scope["user"]]: a [SimpleLazyObject] that has wrapped
    nothing yet runs its function, here [get_user(scope)] on the scope as it
    is at that time, and keeps the result; afterwards it gives what it has
    kept. *)
Definition force_user (st : state) : result entry * state :=
  match dict_get (scope st) (txt "user") with
  | None => (Raise (KeyError "user"), st)
  | Some (Obj v) => (Ok (Obj v), st)
  | Some (LazyUser (Some user)) => (Ok user, st)
  | Some (LazyUser None) =>
      match get_user st with
      | (Ok user, st') =>
          (Ok user,
           State (dict_set (scope st') (txt "user") (LazyUser (Some user)))
                 (auth_calls st'))
      | (Raise e, st') => (Raise e, st')
      end
  end.

End WithBackend.

Arguments Obj {value} v.
Arguments LazyUser {value} wrapped.
Arguments State {value} scope auth_calls.
Arguments scope {value} s.
Arguments auth_calls {value} s.
Arguments get_user {value} auth_get_user st.
Arguments call {value A} inner st.
Arguments force_user {value} auth_get_user st.

End Auth.

Section FurtherInstances.
Context {F : PyFloat}.

(** ** Further instances of the statements *)

(** A world with one running child, of stream ["a"]. *)
Definition busy_world : world :=
  World [] [] [JStr (txt "a")] [] [] (fun _ _ => false).

(** A consumer whose [connect] fails. *)
Definition failing_consumer : consumer :=
  Consumer [txt "chat"] (Layer true) (txt "specific.channel!5")
           (raise (ValueError "no such room"))
           WebsocketConsumer.default_receive
           WebsocketConsumer.default_disconnect.

(** A scope with a session and nothing else, sessions and users being
    numbers, and a backend that gives the user of a session. *)
Definition session_scope : Auth.state nat :=
  Auth.State [(txt "session", Auth.Obj 7%nat)] [].

Definition user_of_session (session : Auth.entry nat) : nat :=
  match session with
  | Auth.Obj n => (n + 100)%nat
  | Auth.LazyUser _ => 0%nat
  end.

End FurtherInstances.

(** * Properties *)

Section Properties.
Context {F : PyFloat} {float_laws : PyFloatLaws F}.

(** ** The codec: strings *)

Lemma str_eqb_eq (a b : str) : str_eqb a b = true <-> a = b.
Proof.
  revert b; induction a as [|x a IH]; destruct b as [|y b]; simpl;
    try (split; [discriminate | discriminate]); [tauto|].
  rewrite andb_true_iff, N.eqb_eq, IH.
  split; [intros [-> ->]; reflexivity | intro E; injection E; auto].
Qed.

Lemma str_eqb_refl (a : str) : str_eqb a a = true.
Proof. now apply str_eqb_eq. Qed.

Lemma hexval_hexdigit d : d < 16 -> hexval (hexdigit d) = Some d.
Proof.
  intro H. destruct d as [|p]; [reflexivity|].
  do 4 (try destruct p as [p|p|]); try reflexivity; lia.
Qed.

Lemma hex4_value n :
  n < 65536 ->
  ((n / 4096 mod 16 * 16 + n / 256 mod 16) * 16 + n / 16 mod 16) * 16
  + n mod 16 = n.
Proof.
  intro H.
  pose proof (N.div_mod n 16 ltac:(lia)).
  pose proof (N.div_mod (n / 16) 16 ltac:(lia)).
  pose proof (N.div_mod (n / 16 / 16) 16 ltac:(lia)).
  rewrite N.Div0.div_div in *. 
  change (16 * 16) with 256 in *.
  rewrite N.Div0.div_div in *. change (256 * 16) with 4096 in *.
  assert (n / 4096 < 16) by (apply N.Div0.div_lt_upper_bound; lia).
  rewrite (N.mod_small (n / 4096) 16) in * by lia.
  lia.
Qed.

Lemma decode_uXXXX_hex4 n r :
  n < 65536 -> r <> [] -> decode_uXXXX (hex4 n ++ r) = Ok (n, r).
Proof.
  intros H Hr. destruct r as [|x r]; [congruence|].
  unfold hex4, decode_uXXXX; simpl.
  rewrite !hexval_hexdigit by (apply N.mod_lt; lia).
  now rewrite hex4_value.
Qed.

Lemma lor_low_bits a x :
  N.land a 1023 = 0 -> N.lor a (N.land x 1023) = a + x mod 1024.
Proof.
  intro H.
  assert (E : N.land a (N.land x 1023) = 0).
  { now rewrite (N.land_comm x), N.land_assoc, H, N.land_0_l. }
  rewrite <- N.lxor_lor, <- N.add_nocarry_lxor by exact E.
  change 1023 with (N.ones 10). now rewrite N.land_ones.
Qed.

Lemma surrogates_of c :
  65536 <= c < 1114112 ->
  let n := c - 65536 in
  N.lor 55296 (N.land (N.shiftr n 10) 1023) = 55296 + n / 1024
  /\ N.lor 56320 (N.land n 1023) = 56320 + n mod 1024.
Proof.
  intros H n.
  rewrite !lor_low_bits by reflexivity.
  rewrite N.shiftr_div_pow2. change (2 ^ 10) with 1024.
  split; [|reflexivity].
  rewrite N.mod_small; [reflexivity|].
  apply N.Div0.div_lt_upper_bound. lia.
Qed.

Lemma surrogates_join c :
  65536 <= c < 1114112 ->
  let n := c - 65536 in
  65536 + N.lor (N.shiftl (55296 + n / 1024 - 55296) 10)
                (56320 + n mod 1024 - 56320) = c.
Proof.
  intros H n.
  rewrite (N.add_comm 55296), (N.add_comm 56320), !N.add_sub.
  assert (E : n mod 1024 = N.land (n mod 1024) 1023).
  { change 1023 with (N.ones 10). rewrite N.land_ones.
    change (2 ^ 10) with 1024. now rewrite N.Div0.mod_mod. }
  rewrite E, lor_low_bits.
  - rewrite N.shiftl_mul_pow2. change (2 ^ 10) with 1024.
    rewrite N.Div0.mod_mod.
    pose proof (N.div_mod n 1024 ltac:(lia)). lia.
  - change 1023 with (N.ones 10). rewrite N.land_ones, N.shiftl_mul_pow2.
    apply N.Div0.mod_mul.
Qed.

Lemma surrogates_range c :
  65536 <= c < 1114112 ->
  let n := c - 65536 in
  is_high_surrogate (55296 + n / 1024) = true
  /\ is_low_surrogate (55296 + n / 1024) = false
  /\ is_low_surrogate (56320 + n mod 1024) = true
  /\ 55296 + n / 1024 < 65536
  /\ 56320 + n mod 1024 < 65536.
Proof.
  intros H n.
  assert (Hn : n < 1024 * 1024) by (unfold n; lia).
  clearbody n.
  assert (n / 1024 < 1024) by (now apply N.Div0.div_lt_upper_bound).
  assert (n mod 1024 < 1024) by (now apply N.mod_lt).
  set (q := n / 1024) in *; set (r := n mod 1024) in *; clearbody q r.
  unfold is_high_surrogate, is_low_surrogate.
  repeat split; try lia.
  - apply andb_true_iff; split; apply N.leb_le; lia.
  - apply andb_false_iff; left; apply N.leb_gt; lia.
  - apply andb_true_iff; split; apply N.leb_le; lia.
Qed.

Lemma scan_uXXXX n chunks c X :
  c < 65536 -> X <> [] ->
  (is_high_surrogate c = true -> no_low_escape X) ->
  scanstring_loop (S n) chunks (uXXXX c ++ X)
  = scanstring_loop n (chunks ++ [c]) X.
Proof.
  intros Hc HX Hx. unfold uXXXX.
  change ((92 :: 117 :: hex4 c) ++ X) with (92 :: 117 :: (hex4 c ++ X)).
  cbn [scanstring_loop]. cbn [N.eqb Pos.eqb].
  rewrite decode_uXXXX_hex4 by assumption.
  destruct (is_high_surrogate c); [|reflexivity].
  specialize (Hx eq_refl). unfold no_low_escape in Hx.
  destruct (strip_prefix [92; 117] X) as [r3|]; [|reflexivity].
  destruct (decode_uXXXX r3) as [[uni2 r4]|e]; [|contradiction].
  now rewrite Hx.
Qed.

Lemma scan_pair n chunks c X :
  65536 <= c < 1114112 -> X <> [] ->
  let m := c - 65536 in
  scanstring_loop (S n) chunks
    (uXXXX (N.lor 55296 (N.land (N.shiftr m 10) 1023))
     ++ uXXXX (N.lor 56320 (N.land m 1023)) ++ X)
  = scanstring_loop n (chunks ++ [c]) X.
Proof.
  intros Hc HX m.
  destruct (surrogates_of c Hc) as [E1 E2]. fold m in E1, E2.
  destruct (surrogates_range c Hc) as (R1 & _ & R3 & R4 & R5). fold m in R1, R3, R4, R5.
  rewrite E1, E2. unfold uXXXX.
  change ((92 :: 117 :: hex4 ?a) ++ ?Y) with (92 :: 117 :: (hex4 a ++ Y)).
  cbn [scanstring_loop]. cbn [N.eqb Pos.eqb].
  rewrite decode_uXXXX_hex4 by (try exact R4; cbn; discriminate).
  rewrite R1.
  change ((92 :: 117 :: hex4 (56320 + m mod 1024)) ++ X)
    with (92 :: 117 :: (hex4 (56320 + m mod 1024) ++ X)).
  cbn [strip_prefix N.eqb Pos.eqb].
  rewrite decode_uXXXX_hex4 by assumption.
  rewrite R3.
  pose proof (surrogates_join c Hc) as J. cbv zeta in J. fold m in J.
  now rewrite J.
Qed.

Lemma scan_char n chunks c X :
  c < 1114112 -> X <> [] ->
  (is_high_surrogate c = true -> no_low_escape X) ->
  scanstring_loop (S n) chunks (encode_char c ++ X)
  = scanstring_loop n (chunks ++ [c]) X.
Proof.
  intros Hc HX Hx. unfold encode_char.
  destruct (N.eqb_spec c 92); [subst c; reflexivity|].
  destruct (N.eqb_spec c 34); [subst c; reflexivity|].
  destruct ((32 <=? c) && (c <=? 126)) eqn:Hp.
  { apply andb_true_iff in Hp; destruct Hp as [Hp _]; apply N.leb_le in Hp.
    cbn [app scanstring_loop].
    destruct (N.eqb_spec c 34); [contradiction|].
    destruct (N.eqb_spec c 92); [contradiction|].
    destruct (N.ltb_spec c 32); [lia|reflexivity]. }
  destruct (N.eqb_spec c 8); [subst c; reflexivity|].
  destruct (N.eqb_spec c 12); [subst c; reflexivity|].
  destruct (N.eqb_spec c 10); [subst c; reflexivity|].
  destruct (N.eqb_spec c 13); [subst c; reflexivity|].
  destruct (N.eqb_spec c 9); [subst c; reflexivity|].
  destruct (N.ltb_spec c 65536) as [Hlt|Hge].
  - now apply scan_uXXXX.
  - cbv zeta. rewrite <- List.app_assoc. apply scan_pair; [lia|exact HX].
Qed.

Lemma no_low_escape_char c Y :
  c < 1114112 -> is_low_surrogate c = false -> Y <> [] ->
  no_low_escape (encode_char c ++ Y).
Proof.
  intros Hc Hl HY. unfold encode_char, no_low_escape.
  destruct (N.eqb_spec c 92); [subst c; exact I|].
  destruct (N.eqb_spec c 34); [subst c; exact I|].
  destruct ((32 <=? c) && (c <=? 126)) eqn:Hp.
  { cbn [app strip_prefix].
    destruct (N.eqb_spec 92 c); [congruence|exact I]. }
  destruct (N.eqb_spec c 8); [subst c; exact I|].
  destruct (N.eqb_spec c 12); [subst c; exact I|].
  destruct (N.eqb_spec c 10); [subst c; exact I|].
  destruct (N.eqb_spec c 13); [subst c; exact I|].
  destruct (N.eqb_spec c 9); [subst c; exact I|].
  destruct (N.ltb_spec c 65536) as [Hlt|Hge].
  - unfold uXXXX. cbn [app strip_prefix N.eqb Pos.eqb].
    now rewrite decode_uXXXX_hex4.
  - cbv zeta.
    assert (Hr : 65536 <= c < 1114112) by lia.
    destruct (surrogates_of c Hr) as [E1 _].
    destruct (surrogates_range c Hr) as (_ & R2 & _ & R4 & _).
    cbv zeta in E1, R2, R4.
    rewrite E1. unfold uXXXX. rewrite <- List.app_assoc.
    cbn [app strip_prefix N.eqb Pos.eqb].
    rewrite decode_uXXXX_hex4 by (try assumption; cbn; discriminate).
    assumption.
Qed.

Lemma no_low_escape_chars s rest :
  well_formed_str s = true ->
  match s with c :: _ => is_low_surrogate c = false | [] => True end ->
  no_low_escape (encode_chars s ++ 34 :: rest).
Proof.
  destruct s as [|c s]; intros Hw Hl.
  - exact I.
  - unfold encode_chars; cbn [flat_map]. rewrite <- List.app_assoc.
    apply no_low_escape_char;
      [|exact Hl|intro E; symmetry in E; exact (app_cons_not_nil _ _ _ E)].
    cbn [well_formed_str] in Hw.
    apply andb_true_iff in Hw; destruct Hw as [Hw _].
    apply andb_true_iff in Hw; destruct Hw as [Hw _].
    now apply N.ltb_lt.
Qed.

Lemma scanstring_loop_encode s :
  well_formed_str s = true ->
  forall n chunks rest,
    (List.length s < n)%nat ->
    scanstring_loop n chunks (encode_chars s ++ 34 :: rest)
    = Ok (chunks ++ s, rest).
Proof.
  induction s as [|c s IH]; intros Hw n chunks rest Hn.
  - destruct n; [simpl in Hn; lia|]. cbn. now rewrite List.app_nil_r.
  - destruct n; [simpl in Hn; lia|].
    cbn [well_formed_str] in Hw.
    apply andb_true_iff in Hw; destruct Hw as [Hw Hs].
    apply andb_true_iff in Hw; destruct Hw as [Hc Hp].
    apply N.ltb_lt in Hc.
    unfold encode_chars; cbn [flat_map]. rewrite <- List.app_assoc.
    fold (encode_chars s).
    rewrite scan_char;
      [|exact Hc|intro E; symmetry in E; exact (app_cons_not_nil _ _ _ E)|].
    + rewrite IH by (simpl in Hn; auto; lia).
      now rewrite <- List.app_assoc.
    + intro Hh. rewrite Hh in Hp. cbn in Hp.
      apply no_low_escape_chars; [exact Hs|].
      destruct s; [exact I|]. now apply negb_true_iff in Hp.
Qed.

Lemma encode_char_nonempty c : (1 <= List.length (encode_char c))%nat.
Proof.
  unfold encode_char, uXXXX.
  repeat match goal with |- context [if ?b then _ else _] => destruct b end;
    cbn; lia.
Qed.

Lemma encode_chars_length s : (List.length s <= List.length (encode_chars s))%nat.
Proof.
  induction s as [|c s IH]; [reflexivity|].
  unfold encode_chars; cbn [flat_map]. fold (encode_chars s).
  rewrite List.length_app. pose proof (encode_char_nonempty c). simpl; lia.
Qed.

Lemma scanstring_encode s rest :
  well_formed_str s = true ->
  scanstring (encode_chars s ++ 34 :: rest) = Ok (s, rest).
Proof.
  intro Hw. unfold scanstring.
  rewrite scanstring_loop_encode; [reflexivity|exact Hw|].
  rewrite List.length_app. pose proof (encode_chars_length s). simpl; lia.
Qed.

Lemma to_uint_leading_digit p : leading_digit (Pos.to_uint p) = true.
Proof.
  assert (U : Decimal.unorm (Pos.to_uint p) = Pos.to_uint p).
  { rewrite <- DecimalPos.Unsigned.to_of, DecimalPos.Unsigned.of_to.
    reflexivity. }
  pose proof (DecimalPos.Unsigned.to_uint_nonnil p) as Hnil.
  pose proof (DecimalPos.Unsigned.to_uint_nonzero p) as Hzero.
  destruct (Pos.to_uint p) as [|d| | | | | | | | |]; try reflexivity.
  - now elim Hnil.
  - destruct d as [|d'| | | | | | | | |]; [now elim Hzero|..];
      match type of U with Decimal.unorm (Decimal.D0 ?u) = _ =>
        rewrite DecimalFacts.unorm_D0 in U;
        pose proof (DecimalFacts.nb_digits_unorm u ltac:(discriminate)) as L;
        rewrite U in L; simpl in L; lia
      end.
Qed.

Lemma scan_digits_uint d rest :
  match rest with c :: _ => digit_of c = None | [] => True end ->
  scan_digits (uint_chars d ++ rest) = (d, rest).
Proof.
  intro H. induction d; cbn; rewrite ?IHd; try reflexivity.
  destruct rest as [|c r]; [reflexivity|]. cbn. now rewrite H.
Qed.

Lemma ends_value_no_digit rest :
  ends_value rest = true ->
  match rest with c :: _ => digit_of c = None | [] => True end.
Proof.
  destruct rest as [|c r]; [trivial|]. cbn.
  intro H. apply orb_true_iff in H. destruct H as [H|H];
    [apply orb_true_iff in H; destruct H as [H|H]|];
    apply N.eqb_eq in H; subst c; reflexivity.
Qed.

Lemma ends_value_no_frac rest :
  ends_value rest = true -> match_frac rest = None /\ match_exp rest = None.
Proof.
  destruct rest as [|c r]; [split; reflexivity|]. cbn.
  intro H. apply orb_true_iff in H. destruct H as [H|H];
    [apply orb_true_iff in H; destruct H as [H|H]|];
    apply N.eqb_eq in H; subst c; split; reflexivity.
Qed.

Lemma match_digits_uint d rest :
  leading_digit d = true ->
  match rest with c :: _ => digit_of c = None | [] => True end ->
  match_digits (uint_chars d ++ rest) = Some (d, rest)
  /\ match_integer (uint_chars d ++ rest) = Some (Decimal.Pos d, rest).
Proof.
  intros Hd Hr.
  destruct d; try discriminate Hd; cbn;
    rewrite (scan_digits_uint _ _ Hr); split; reflexivity.
Qed.

(** The integer part of [NUMBER_RE] reads what [int.__repr__] wrote, up to
    a character that is no digit. *)
Lemma match_integer_digits z rest :
  match rest with c :: _ => digit_of c = None | [] => True end ->
  match_integer (int_repr z ++ rest) = Some (Z.to_int z, rest).
Proof.
  intro Hr. unfold int_repr. destruct z as [|p|p]; cbn [Z.to_int].
  - reflexivity.
  - now apply match_digits_uint; [apply to_uint_leading_digit|].
  - cbn [app match_integer N.eqb Pos.eqb].
    destruct (match_digits_uint (Pos.to_uint p) rest
                (to_uint_leading_digit p) Hr) as [-> _].
    reflexivity.
Qed.

Lemma match_integer_repr z rest :
  ends_value rest = true ->
  match_integer (int_repr z ++ rest) = Some (Z.to_int z, rest).
Proof.
  intro Hr. apply match_integer_digits. now apply ends_value_no_digit.
Qed.

Lemma scan_number_repr z rest :
  ends_value rest = true ->
  scan_number (int_repr z ++ rest) = Some (JInt z, rest).
Proof.
  intro Hr. unfold scan_number, match_number.
  rewrite (match_integer_repr z rest Hr).
  destruct (ends_value_no_frac rest Hr) as [-> ->].
  now rewrite DecimalZ.of_to.
Qed.

(** The first character of what [NUMBER_RE] matches is a minus sign or a
    digit. *)
Lemma match_number_head c r m :
  match_number (c :: r) = Some m -> c = 45 \/ 48 <= c <= 57.
Proof.
  unfold match_number, match_integer.
  destruct (N.eqb_spec c 45) as [E|E]; [now left|].
  intro H. right.
  destruct (match_digits (c :: r)) as [[d r']|] eqn:D; [|discriminate H].
  clear H. unfold match_digits in D.
  destruct (N.eqb_spec c 48) as [E0|E0]; [lia|].
  unfold digit_of in D.
  repeat match type of D with
         | context [N.eqb c ?k] => destruct (N.eqb_spec c k); [lia|]
         end.
  discriminate D.
Qed.

Lemma firstn_length_app (l r : str) :
  firstn (List.length (l ++ r) - List.length r)%nat (l ++ r) = l.
Proof.
  rewrite length_app, Nat.add_sub.
  induction l as [|x l IH]; [now destruct r|].
  cbn. now rewrite IH.
Qed.

Lemma scan_number_float (f : pyfloat) rest :
  float_kind f = Finite -> ends_value rest = true ->
  scan_number (float_repr f ++ rest) = Some (JFloat f, rest).
Proof.
  intros Hk Hr. unfold scan_number.
  destruct (float_repr_number f rest Hk Hr) as [integer ->].
  now rewrite firstn_length_app, float_of_repr.
Qed.

(** The first character of a float: a minus sign, a digit, or the [N] or
    [I] of [NaN] and [Infinity]. *)
Lemma floatstr_head (f : pyfloat) :
  exists c r, floatstr f = c :: r
              /\ (c = 45 \/ 48 <= c <= 57 \/ c = 78 \/ c = 73).
Proof.
  unfold floatstr. destruct (float_kind f) eqn:Hk.
  - destruct (float_repr_number f [] Hk eq_refl) as [integer H].
    rewrite List.app_nil_r in H.
    destruct (float_repr f) as [|c r]; [discriminate H|].
    exists c, r. split; [reflexivity|].
    destruct (match_number_head _ _ _ H) as [Q|Q]; [now left|right; now left].
  - eexists; eexists; split; [reflexivity|]. right; right; now left.
  - eexists; eexists; split; [reflexivity|]. right; right; now right.
  - eexists; eexists; split; [reflexivity|]. now left.
Qed.

Lemma scan_once_float (f : pyfloat) rest fuel :
  ends_value rest = true ->
  scan_once (S fuel) (floatstr f ++ rest) = Ok (JFloat f, rest).
Proof.
  intro Hr. unfold floatstr. destruct (float_kind f) eqn:Hk.
  - pose proof (scan_number_float f rest Hk Hr) as Hn.
    destruct (floatstr_head f) as (c & r & E & Hc).
    unfold floatstr in E. rewrite Hk in E.
    rewrite E in *. cbn [app] in *.
    cbn [scan_once].
    destruct (N.eqb_spec c 34); [lia|].
    destruct (N.eqb_spec c 123); [lia|].
    destruct (N.eqb_spec c 91); [lia|].
    cbn [txt list_ascii_of_string map strip_prefix].
    destruct (N.eqb_spec (N_of_ascii "n") c) as [Q|_]; [cbn in Q; lia|].
    destruct (N.eqb_spec (N_of_ascii "t") c) as [Q|_]; [cbn in Q; lia|].
    destruct (N.eqb_spec (N_of_ascii "f") c) as [Q|_]; [cbn in Q; lia|].
    now rewrite Hn.
  - rewrite (float_nan_only f Hk). reflexivity.
  - rewrite (float_inf_only f Hk). reflexivity.
  - rewrite (float_neginf_only f Hk). reflexivity.
Qed.

(** The first character of a number is a minus sign or a digit. *)
Lemma int_repr_head z :
  exists c r, int_repr z = c :: r /\ (c = 45 \/ 48 <= c <= 57).
Proof.
  unfold int_repr. destruct z as [|p|p]; cbn [Z.to_int].
  - exists 48, []. split; [reflexivity|lia].
  - pose proof (to_uint_leading_digit p) as H.
    destruct (Pos.to_uint p); try discriminate H; cbn;
      eexists; eexists; (split; [reflexivity|lia]).
  - eexists; eexists; split; [reflexivity|lia].
Qed.

Lemma scan_once_number z rest f :
  ends_value rest = true ->
  scan_once (S f) (int_repr z ++ rest) = Ok (JInt z, rest).
Proof.
  intro Hr.
  pose proof (scan_number_repr z rest Hr) as Hn.
  destruct (int_repr_head z) as (c & r & E & Hc).
  rewrite E in *. cbn [app] in *.
  cbn [scan_once].
  destruct (N.eqb_spec c 34); [lia|].
  destruct (N.eqb_spec c 123); [lia|].
  destruct (N.eqb_spec c 91); [lia|].
  cbn [txt list_ascii_of_string map strip_prefix].
  destruct (N.eqb_spec (N_of_ascii "n") c) as [Q|_]; [cbn in Q; lia|].
  destruct (N.eqb_spec (N_of_ascii "t") c) as [Q|_]; [cbn in Q; lia|].
  destruct (N.eqb_spec (N_of_ascii "f") c) as [Q|_]; [cbn in Q; lia|].
  now rewrite Hn.
Qed.

(** ** The codec: arrays and objects *)

Lemma json_dumps_head v :
  exists c r, json_dumps v = c :: r
              /\ is_ws c = false /\ (c =? 93) = false /\ c < 128.
Proof.
  destruct v as [|[|]|z|f|s|l|d]; cbn;
    try (eexists; eexists; split; [reflexivity|];
         split; [reflexivity|]; split; [reflexivity|]; lia).
  - destruct (int_repr_head z) as (c & r & E & Hc).
    exists c, r. split; [exact E|].
    unfold is_ws.
    destruct (N.eqb_spec c 32); [lia|]. destruct (N.eqb_spec c 9); [lia|].
    destruct (N.eqb_spec c 10); [lia|]. destruct (N.eqb_spec c 13); [lia|].
    destruct (N.eqb_spec c 93); [lia|]. repeat split; lia.
  - destruct (floatstr_head f) as (c & r & E & Hc).
    exists c, r. split; [exact E|].
    unfold is_ws.
    destruct (N.eqb_spec c 32); [lia|]. destruct (N.eqb_spec c 9); [lia|].
    destruct (N.eqb_spec c 10); [lia|]. destruct (N.eqb_spec c 13); [lia|].
    destruct (N.eqb_spec c 93); [lia|]. repeat split; lia.
Qed.

Lemma skip_ws_dumps v rest : skip_ws (json_dumps v ++ rest) = json_dumps v ++ rest.
Proof.
  destruct (json_dumps_head v) as (c & r & E & Hw & _).
  rewrite E. cbn. now rewrite Hw.
Qed.

Lemma dumps_nonempty v rest : (1 <= List.length (json_dumps v ++ rest))%nat.
Proof.
  destruct (json_dumps_head v) as (c & r & E & _).
  rewrite E. cbn. lia.
Qed.

Lemma array_loop_items f :
  forall l,
    l <> [] ->
    Forall (fun x => representable x = true -> scans_back x) l ->
    forallb representable l = true ->
    forall n values rest,
      ends_value rest = true ->
      Nat.lt (List.length (join_items (map json_dumps l) ++ 93 :: rest)) f ->
      Nat.le (List.length (join_items (map json_dumps l) ++ 93 :: rest)) n ->
      JSONArray_loop (scan_once f) n values
        (join_items (map json_dumps l) ++ 93 :: rest)
      = Ok (JList (values ++ l), rest).
Proof.
  induction l as [|x l IH]; [congruence|].
  intros _ HF Hr n values rest He Hf Hn.
  inversion HF as [|? ? Hx HF']; subst.
  cbn [forallb] in Hr. apply andb_true_iff in Hr. destruct Hr as [Hrx Hrl].
  specialize (Hx Hrx).
  destruct l as [|y l].
  - cbn [map join_items] in *.
    destruct n; [pose proof (dumps_nonempty x (93 :: rest)); lia|].
    cbn [JSONArray_loop].
    rewrite Hx by (auto; lia). reflexivity.
  - change (join_items (map json_dumps (x :: y :: l)))
      with (json_dumps x ++ 44 :: 32 :: join_items (map json_dumps (y :: l)))
      in *.
    rewrite <- List.app_assoc in *.
    destruct n; [pose proof (dumps_nonempty x
      ((44 :: 32 :: join_items (map json_dumps (y :: l))) ++ 93 :: rest));
      lia|].
    cbn [JSONArray_loop].
    rewrite Hx by (auto; lia).
    cbn [app skip_ws is_ws N.eqb Pos.eqb orb].
    change (join_items (map json_dumps (y :: l)))
      with (join_items (json_dumps y :: map json_dumps l)).
    assert (Hskip : skip_ws (join_items (json_dumps y :: map json_dumps l)
                             ++ 93 :: rest)
                    = join_items (json_dumps y :: map json_dumps l)
                      ++ 93 :: rest).
    { destruct (map json_dumps l); cbn [join_items];
        rewrite <- ?List.app_assoc; apply skip_ws_dumps. }
    rewrite Hskip.
    change (json_dumps y :: map json_dumps l) with (map json_dumps (y :: l))
      in *.
    rewrite List.length_app in Hf, Hn. cbn [List.length app] in Hf, Hn.
    rewrite IH; try assumption; try discriminate.
    + now rewrite <- List.app_assoc.
    + lia.
    + lia.
Qed.

Lemma object_text d rest :
  d <> [] ->
  join_items (map dumps_item d) ++ 125 :: rest = 34 :: object_tail d rest.
Proof.
  induction d as [|kv d IH]; [congruence|]. intros _.
  destruct d as [|kv' d].
  - cbn [map join_items object_tail]. unfold dumps_item, encode_basestring_ascii.
    cbn [app]. rewrite <- !List.app_assoc. reflexivity.
  - change (join_items (map dumps_item (kv :: kv' :: d)))
      with (dumps_item kv ++ 44 :: 32 :: join_items (map dumps_item (kv' :: d))).
    rewrite <- List.app_assoc. cbn [app]. rewrite IH by discriminate.
    cbn [object_tail]. unfold dumps_item, encode_basestring_ascii.
    cbn [app]. rewrite <- !List.app_assoc. reflexivity.
Qed.

Lemma object_loop_items f :
  forall d,
    d <> [] ->
    Forall (fun kv => representable (snd kv) = true -> scans_back (snd kv)) d ->
    forallb (fun kv => well_formed_str (fst kv) && representable (snd kv)) d
      = true ->
    forall n pairs rest,
      ends_value rest = true ->
      Nat.lt (List.length (object_tail d rest)) f ->
      Nat.le (List.length (object_tail d rest)) n ->
      JSONObject_loop (scan_once f) n pairs (object_tail d rest)
      = Ok (JDict (dict_of_pairs (pairs ++ d)), rest).
Proof.
  induction d as [|[k v] d IH]; [congruence|].
  intros _ HF Hr n pairs rest He Hf Hn.
  inversion HF as [|? ? Hv HF']; subst.
  cbn [forallb fst snd] in Hr, Hv.
  apply andb_true_iff in Hr. destruct Hr as [Hr Hrd].
  apply andb_true_iff in Hr. destruct Hr as [Hk Hrv].
  specialize (Hv Hrv).
  cbn [object_tail fst snd] in *.
  rewrite List.length_app in Hf, Hn. cbn [List.length] in Hf, Hn.
  rewrite List.length_app in Hf, Hn.
  destruct n; [lia|].
  cbn [JSONObject_loop].
  rewrite scanstring_encode by exact Hk.
  cbn [skip_ws is_ws N.eqb Pos.eqb orb].
  rewrite skip_ws_dumps.
  destruct d as [|kv' d].
  - rewrite Hv; [|reflexivity|rewrite List.length_app; lia].
    reflexivity.
  - rewrite Hv; [|reflexivity|rewrite List.length_app; lia].
    cbn [skip_ws is_ws N.eqb Pos.eqb orb].
    cbn [List.length] in Hf, Hn.
    rewrite IH; try assumption; try discriminate.
    + now rewrite <- List.app_assoc.
    + lia.
    + lia.
Qed.

Lemma distinct_keys_NoDup ks : distinct_keys ks = true -> NoDup ks.
Proof.
  induction ks as [|k ks IH]; cbn; intro H; constructor.
  - apply andb_true_iff in H. destruct H as [H _].
    apply negb_true_iff in H. intro Hin.
    assert (E : existsb (str_eqb k) ks = true).
    { apply existsb_exists. exists k. split; [exact Hin|apply str_eqb_refl]. }
    congruence.
  - apply IH. apply andb_true_iff in H. tauto.
Qed.

Lemma dict_set_fresh {V : Type} (d : list (str * V)) k v :
  ~ In k (map fst d) -> dict_set d k v = d ++ [(k, v)].
Proof.
  induction d as [|[k' v'] d IH]; cbn; intro H; [reflexivity|].
  destruct (str_eqb k' k) eqn:E.
  - apply str_eqb_eq in E. tauto.
  - rewrite IH by tauto. reflexivity.
Qed.

Lemma fold_dict_set_fresh {V : Type} (l acc : list (str * V)) :
  NoDup (map fst (acc ++ l)) ->
  fold_left (fun d kv => dict_set d (fst kv) (snd kv)) l acc = acc ++ l.
Proof.
  revert acc; induction l as [|[k v] l IH]; intros acc H; cbn.
  - now rewrite List.app_nil_r.
  - rewrite dict_set_fresh.
    + rewrite IH; rewrite <- List.app_assoc; [reflexivity|exact H].
    + rewrite map_app in H. cbn in H. apply NoDup_remove_2 in H.
      intro Hin. apply H. apply in_or_app. now left.
Qed.

Lemma dict_of_pairs_distinct (d : list (str * json)) :
  distinct_keys (map fst d) = true -> dict_of_pairs d = d.
Proof.
  intro H. unfold dict_of_pairs.
  now rewrite fold_dict_set_fresh; [|apply distinct_keys_NoDup].
Qed.

Lemma scan_once_dumps v : representable v = true -> scans_back v.
Proof.
  induction v as [|b|z|x|s|l IH|d IH] using json_ind;
    intros Hr fuel rest He Hf;
    (destruct fuel as [|f]; [lia|]).
  - reflexivity.
  - destruct b; reflexivity.
  - now apply scan_once_number.
  - now apply scan_once_float.
  - cbn [json_dumps representable] in *. unfold encode_basestring_ascii.
    cbn [app scan_once N.eqb Pos.eqb]. rewrite <- List.app_assoc.
    cbn [app]. now rewrite scanstring_encode.
  - cbn [json_dumps representable] in *.
    cbn [app scan_once N.eqb Pos.eqb]. rewrite <- List.app_assoc.
    cbn [app] in *. unfold JSONArray.
    destruct l as [|x l].
    + reflexivity.
    + cbn [List.length] in Hf. rewrite <- List.app_assoc in Hf.
      cbn [app] in Hf.
      assert (Hskip : skip_ws (join_items (map json_dumps (x :: l))
                               ++ 93 :: rest)
                      = join_items (map json_dumps (x :: l)) ++ 93 :: rest).
      { cbn [map]. destruct (map json_dumps l); cbn [join_items];
          rewrite <- ?List.app_assoc; apply skip_ws_dumps. }
      rewrite Hskip.
      assert (Hhead : exists c r,
                 join_items (map json_dumps (x :: l)) ++ 93 :: rest = c :: r
                 /\ (c =? 93) = false).
      { destruct (json_dumps_head x) as (c & r & E & _ & Hc & _).
        cbn [map]. destruct (map json_dumps l); cbn [join_items];
          rewrite E; cbn [app]; eauto. }
      destruct Hhead as (c & r & E & Hc).
      rewrite E at 1. rewrite Hc.
      rewrite array_loop_items; try assumption; try discriminate;
        try reflexivity; lia.
  - cbn [json_dumps representable] in *.
    apply andb_true_iff in Hr. destruct Hr as [Hk Hr].
    cbn [app scan_once N.eqb Pos.eqb]. rewrite <- List.app_assoc.
    cbn [app] in *. unfold JSONObject.
    destruct d as [|kv d].
    + reflexivity.
    + cbn [List.length] in Hf. rewrite <- List.app_assoc in Hf.
      cbn [app] in Hf.
      change (fun kv0 : str * json =>
                encode_basestring_ascii (fst kv0)
                ++ 58 :: 32 :: json_dumps (snd kv0)) with dumps_item in *.
      rewrite object_text in * by discriminate.
      cbn [skip_ws is_ws N.eqb Pos.eqb orb].
      cbn [List.length] in Hf.
      rewrite object_loop_items; try assumption; try discriminate;
        try lia.
      cbn [app]. now rewrite dict_of_pairs_distinct.
Qed.

Lemma json_loads_dumps v :
  representable v = true -> json_loads (json_dumps v) = Ok v.
Proof.
  intro Hr.
  pose proof (scan_once_dumps v Hr (S (List.length (json_dumps v))) []
                eq_refl) as H.
  rewrite List.app_nil_r in H. specialize (H (Nat.lt_succ_diag_r _)).
  pose proof (skip_ws_dumps v []) as Hs. rewrite List.app_nil_r in Hs.
  destruct (json_dumps_head v) as (c & r & E & _ & _ & Hc).
  unfold json_loads. rewrite E at 1. cbn [strip_prefix].
  destruct (N.eqb_spec 65279 c); [lia|].
  unfold decode. now rewrite Hs, H.
Qed.

(** ** The codec: what [json.loads] builds from a Unicode text *)

Lemma well_formed_cons c s :
  c < 1114112 ->
  (is_high_surrogate c = true -> starts_low s = false) ->
  well_formed_str s = true ->
  well_formed_str (c :: s) = true.
Proof.
  intros Hc Hh Hs. cbn [well_formed_str]. rewrite Hs.
  apply N.ltb_lt in Hc. rewrite Hc.
  destruct (is_high_surrogate c); [|reflexivity].
  specialize (Hh eq_refl). unfold starts_low in Hh.
  destruct s; [reflexivity|]. now rewrite Hh.
Qed.

Lemma unicode_text_cons c s :
  unicode_text (c :: s) = true ->
  c < 1114112 /\ is_high_surrogate c = false /\ is_low_surrogate c = false
  /\ unicode_text s = true.
Proof.
  unfold unicode_text; cbn [forallb]. intro H.
  apply andb_true_iff in H. destruct H as [H Hs].
  apply andb_true_iff in H. destruct H as [Hc H].
  apply negb_true_iff, orb_false_iff in H.
  apply N.ltb_lt in Hc. tauto.
Qed.

Lemma hexval_bound c d : hexval c = Some d -> d < 16.
Proof.
  unfold hexval.
  destruct ((48 <=? c) && (c <=? 57)) eqn:E1;
    [|destruct ((97 <=? c) && (c <=? 102)) eqn:E2;
      [|destruct ((65 <=? c) && (c <=? 70)) eqn:E3; [|discriminate]]];
    intro H; injection H as <-;
    match goal with E : _ && _ = true |- _ =>
      apply andb_true_iff in E; destruct E as [L U];
      apply N.leb_le in L; apply N.leb_le in U; lia
    end.
Qed.

Lemma decode_uXXXX_inv s uni r :
  decode_uXXXX s = Ok (uni, r) ->
  uni < 65536 /\ exists a b c d, s = a :: b :: c :: d :: r.
Proof.
  unfold decode_uXXXX.
  destruct s as [|a [|b [|c [|d [|e r']]]]]; try discriminate.
  destruct (hexval a) as [x|] eqn:Ea; [|discriminate].
  destruct (hexval b) as [y|] eqn:Eb; [|discriminate].
  destruct (hexval c) as [z|] eqn:Ec; [|discriminate].
  destruct (hexval d) as [t|] eqn:Ed; [|discriminate].
  intro H; injection H as <- <-.
  apply hexval_bound in Ea, Eb, Ec, Ed.
  split; [lia|]. now exists a, b, c, d.
Qed.

Lemma decode_uXXXX_unicode s uni r :
  decode_uXXXX s = Ok (uni, r) ->
  unicode_text s = true -> unicode_text r = true.
Proof.
  intros H Hs. apply decode_uXXXX_inv in H.
  destruct H as (_ & a & b & c & d & ->).
  do 4 (apply unicode_text_cons in Hs; destruct Hs as (_ & _ & _ & Hs)).
  exact Hs.
Qed.

Lemma strip_prefix_unicode p s r :
  strip_prefix p s = Some r -> unicode_text s = true -> unicode_text r = true.
Proof.
  revert s; induction p as [|x p IH]; intros s H Hs; cbn in H.
  - now injection H as <-.
  - destruct s as [|c s]; [discriminate|].
    destruct (x =? c); [|discriminate].
    apply unicode_text_cons in Hs. apply (IH s H). tauto.
Qed.

Lemma joined_surrogates uni uni2 :
  is_high_surrogate uni = true -> is_low_surrogate uni2 = true ->
  let c := 65536 + N.lor (N.shiftl (uni - 55296) 10) (uni2 - 56320) in
  65536 <= c < 1114112.
Proof.
  intros Hh Hl c. unfold is_high_surrogate, is_low_surrogate in Hh, Hl.
  apply andb_true_iff in Hh, Hl. destruct Hh as [H1 H2], Hl as [L1 L2].
  apply N.leb_le in H1, H2, L1, L2.
  assert (Hx : uni - 55296 < 1024) by lia.
  assert (Hy : uni2 - 56320 < 1024) by lia.
  set (x := uni - 55296) in *. set (y := uni2 - 56320) in *.
  clearbody x y.
  assert (E : N.lor (N.shiftl x 10) y = x * 1024 + y).
  { rewrite <- (N.mod_small y 1024) at 1 by exact Hy.
    change 1024 with (2 ^ 10) at 1. rewrite <- N.land_ones.
    change (N.ones 10) with 1023. rewrite lor_low_bits.
    - rewrite N.shiftl_mul_pow2, N.mod_small by exact Hy. reflexivity.
    - change 1023 with (N.ones 10). rewrite N.land_ones, N.shiftl_mul_pow2.
      apply N.Div0.mod_mul. }
  unfold c. rewrite E. lia.
Qed.

Lemma BACKSLASH_ascii esc char : BACKSLASH esc = Some char -> char < 128.
Proof.
  unfold BACKSLASH.
  repeat match goal with
         | |- context [if ?b then _ else _] => destruct b
         end; intro H; try discriminate; injection H as <-; lia.
Qed.

Lemma surrogate_bounds c :
  (c < 55296 \/ 57343 < c) ->
  is_high_surrogate c = false /\ is_low_surrogate c = false.
Proof.
  unfold is_high_surrogate, is_low_surrogate. intro H.
  split; apply andb_false_iff;
    destruct (N.leb_spec 55296 c), (N.leb_spec c 56319),
      (N.leb_spec 56320 c), (N.leb_spec c 57343); auto; lia.
Qed.

Lemma high_not_low c : is_high_surrogate c = true -> is_low_surrogate c = false.
Proof.
  unfold is_high_surrogate, is_low_surrogate. intro H.
  apply andb_true_iff in H. destruct H as [_ H]. apply N.leb_le in H.
  apply andb_false_iff. left. apply N.leb_gt. lia.
Qed.

Lemma scanstring_loop_well_formed n :
  forall chunks s out rest,
    unicode_text s = true ->
    scanstring_loop n chunks s = Ok (out, rest) ->
    exists tail,
      out = chunks ++ tail
      /\ well_formed_str tail = true
      /\ (starts_low tail = true -> escaped_low s)
      /\ unicode_text rest = true.
Proof.
  induction n as [|n IH]; intros chunks s out rest Hs H; [discriminate|].
  cbn [scanstring_loop] in H.
  destruct s as [|c r]; [discriminate|].
  destruct (unicode_text_cons c r Hs) as (Hc & Hch & Hcl & Hr).
  destruct (N.eqb_spec c 34) as [->|Hq].
  { injection H as <- <-. exists []. rewrite List.app_nil_r.
    repeat split; auto. discriminate. }
  destruct (N.eqb_spec c 92) as [->|Hb].
  - destruct r as [|esc r1]; [discriminate|].
    destruct (unicode_text_cons esc r1 Hr) as (_ & _ & _ & Hr1).
    destruct (N.eqb_spec esc 117) as [->|Hu].
    + destruct (decode_uXXXX r1) as [[uni r2]|e] eqn:D; [|discriminate].
      pose proof (decode_uXXXX_unicode _ _ _ D Hr1) as Hr2.
      destruct (decode_uXXXX_inv _ _ _ D) as (Huni & _).
      assert (Halone :
        (is_high_surrogate uni = true -> ~ escaped_low r2) ->
        scanstring_loop n (chunks ++ [uni]) r2 = Ok (out, rest) ->
        exists tail,
          out = chunks ++ tail /\ well_formed_str tail = true
          /\ (starts_low tail = true -> escaped_low (92 :: 117 :: r1))
          /\ unicode_text rest = true).
      { intros Hne H'.
        destruct (IH _ _ _ _ Hr2 H') as (tail & -> & Hw & Hl & Hrest).
        exists (uni :: tail). rewrite <- List.app_assoc.
        repeat split; auto.
        - apply well_formed_cons; [lia| |exact Hw].
          intro Hh. destruct (starts_low tail) eqn:Es; [|reflexivity].
          elim (Hne Hh). now apply Hl.
        - cbn [starts_low]. intro Hlow. exists r1, uni, r2. auto. }
      destruct (is_high_surrogate uni) eqn:Hh; [|now apply Halone].
      destruct (strip_prefix [92; 117] r2) as [r3|] eqn:P.
      * destruct (decode_uXXXX r3) as [[uni2 r4]|e] eqn:D2; [|discriminate].
        destruct (is_low_surrogate uni2) eqn:Hl2.
        -- pose proof (joined_surrogates uni uni2 Hh Hl2) as Hj.
           cbv zeta in Hj.
           set (cc := 65536 + N.lor (N.shiftl (uni - 55296) 10)
                                    (uni2 - 56320)) in *.
           assert (Hr4 : unicode_text r4 = true).
           { eapply decode_uXXXX_unicode; [exact D2|].
             eapply strip_prefix_unicode; eauto. }
           destruct (IH _ _ _ _ Hr4 H) as (tail & -> & Hw & Hl & Hrest).
           destruct (surrogate_bounds cc) as [Hcch Hccl]; [lia|].
           exists (cc :: tail). rewrite <- List.app_assoc.
           repeat split; auto.
           ++ apply well_formed_cons; [lia| |exact Hw]. congruence.
           ++ cbn [starts_low]. congruence.
        -- apply Halone; [|exact H].
           intros _ (r3' & u' & r4' & P' & D' & L').
           congruence.
      * apply Halone; [|exact H].
        intros _ (r3' & u' & r4' & P' & _). congruence.
    + destruct (BACKSLASH esc) as [char|] eqn:B; [|discriminate].
      apply BACKSLASH_ascii in B.
      destruct (IH _ _ _ _ Hr1 H) as (tail & -> & Hw & Hl & Hrest).
      destruct (surrogate_bounds char) as [Hcch Hccl]; [lia|].
      exists (char :: tail). rewrite <- List.app_assoc.
      repeat split; auto.
      * apply well_formed_cons; [lia| |exact Hw]. congruence.
      * cbn [starts_low]. congruence.
  - destruct (c <? 32); [discriminate|].
    destruct (IH _ _ _ _ Hr H) as (tail & -> & Hw & Hl & Hrest).
    exists (c :: tail). rewrite <- List.app_assoc.
    repeat split; auto.
    + apply well_formed_cons; [lia| |exact Hw]. congruence.
    + cbn [starts_low]. congruence.
Qed.

Lemma scanstring_well_formed s out rest :
  unicode_text s = true ->
  scanstring s = Ok (out, rest) ->
  well_formed_str out = true /\ unicode_text rest = true.
Proof.
  intros Hs H. unfold scanstring in H.
  destruct (scanstring_loop_well_formed _ _ _ _ _ Hs H)
    as (tail & -> & Hw & _ & Hr).
  auto.
Qed.

Lemma skip_ws_unicode s : unicode_text s = true -> unicode_text (skip_ws s) = true.
Proof.
  induction s as [|c s IH]; [trivial|]. intro H. cbn [skip_ws].
  destruct (is_ws c); [|exact H].
  apply IH. now apply unicode_text_cons in H.
Qed.

Lemma scan_digits_unicode s :
  unicode_text s = true -> unicode_text (snd (scan_digits s)) = true.
Proof.
  induction s as [|c s IH]; [trivial|]. intro H. cbn [scan_digits].
  destruct (digit_of c); [|exact H].
  destruct (scan_digits s) as [d r'] eqn:E. cbn [snd] in *.
  apply IH. now apply unicode_text_cons in H.
Qed.

Lemma match_digits_unicode s d r :
  match_digits s = Some (d, r) ->
  unicode_text s = true -> unicode_text r = true.
Proof.
  unfold match_digits. destruct s as [|c s]; [discriminate|].
  intros H Hs. apply unicode_text_cons in Hs. destruct Hs as (_ & _ & _ & Hs).
  destruct (c =? 48); [now injection H as <- <-|].
  destruct (digit_of c); [|discriminate].
  pose proof (scan_digits_unicode s Hs) as Hd.
  destruct (scan_digits s) as [d' r']. injection H as <- <-. exact Hd.
Qed.

Lemma scan_digits_suffix s : exists p, s = p ++ snd (scan_digits s).
Proof.
  induction s as [|c s [p IH]]; [now exists []|]. cbn [scan_digits].
  destruct (digit_of c); [|now exists []].
  destruct (scan_digits s) as [d r']. cbn [snd] in *.
  exists (c :: p). cbn. now f_equal.
Qed.

Lemma match_integer_suffix s i r :
  match_integer s = Some (i, r) -> exists c p, s = c :: p ++ r.
Proof.
  assert (D : forall t d r', match_digits t = Some (d, r') ->
                             exists c p, t = c :: p ++ r').
  { intros t d r'. unfold match_digits. destruct t as [|c t]; [discriminate|].
    destruct (c =? 48); [intro H; injection H as <- <-; now exists c, []|].
    destruct (digit_of c); [|discriminate].
    destruct (scan_digits_suffix t) as [p E].
    destruct (scan_digits t) as [d' r'']. cbn [snd] in E.
    intro H; injection H as <- <-. exists c, p. now f_equal. }
  unfold match_integer. destruct s as [|c s]; [discriminate|].
  destruct (c =? 45).
  - destruct (match_digits s) as [[d r']|] eqn:M; [|discriminate].
    intro H; injection H as <- <-.
    destruct (D _ _ _ M) as (c' & p & ->). now exists c, (c' :: p).
  - destruct (match_digits (c :: s)) as [[d r']|] eqn:M; [|discriminate].
    intro H; injection H as <- <-. exact (D _ _ _ M).
Qed.

Lemma match_frac_suffix s r : match_frac s = Some r -> exists p, s = p ++ r.
Proof.
  unfold match_frac. destruct s as [|a s']; [discriminate|].
  destruct (N.eq_dec a 46) as [->|Ha].
  - destruct s' as [|c r']; [discriminate|].
    destruct (is_digit c); [|discriminate].
    intro H; injection H as <-.
    destruct (scan_digits_suffix r') as [p E].
    exists (46 :: c :: p). cbn. now do 2 f_equal.
  - intro H. exfalso. destruct a as [|q]; [discriminate|].
    do 6 (destruct q as [q|q|]; try discriminate). congruence.
Qed.

Lemma match_exp_suffix s r : match_exp s = Some r -> exists p, s = p ++ r.
Proof.
  unfold match_exp. destruct s as [|e s']; [discriminate|].
  destruct ((e =? 101) || (e =? 69)); [|discriminate].
  destruct s' as [|sg r1]; [discriminate|].
  destruct ((sg =? 45) || (sg =? 43)).
  - destruct r1 as [|c r2]; [discriminate|].
    destruct (is_digit c); [|discriminate].
    intro H; injection H as <-.
    destruct (scan_digits_suffix r2) as [p E].
    exists (e :: sg :: c :: p). cbn. now do 3 f_equal.
  - destruct (is_digit sg); [|discriminate].
    intro H; injection H as <-.
    destruct (scan_digits_suffix r1) as [p E].
    exists (e :: sg :: p). cbn. now do 2 f_equal.
Qed.

(** What [NUMBER_RE] matches is a part of the text, of one character or
    more. *)
Lemma match_number_suffix s i b r :
  match_number s = Some (i, b, r) -> exists c p, s = c :: p ++ r.
Proof.
  unfold match_number.
  destruct (match_integer s) as [[i' r0]|] eqn:I; [|discriminate].
  destruct (match_integer_suffix _ _ _ I) as (c & p & ->).
  destruct (match_frac r0) as [r1|] eqn:Fr.
  - destruct (match_frac_suffix _ _ Fr) as [p1 ->].
    destruct (match_exp r1) as [r2|] eqn:Ex.
    + destruct (match_exp_suffix _ _ Ex) as [p2 ->].
      intro H; injection H as <- <- <-. exists c, (p ++ p1 ++ p2).
      now rewrite <- !List.app_assoc.
    + intro H; injection H as <- <- <-. exists c, (p ++ p1).
      now rewrite <- !List.app_assoc.
  - destruct (match_exp r0) as [r2|] eqn:Ex.
    + destruct (match_exp_suffix _ _ Ex) as [p2 ->].
      intro H; injection H as <- <- <-. exists c, (p ++ p2).
      now rewrite <- !List.app_assoc.
    + intro H; injection H as <- <- <-. now exists c, p.
Qed.

Lemma scan_number_suffix s (v : json) r :
  scan_number s = Some (v, r) ->
  representable v = true /\ exists c p, s = c :: p ++ r.
Proof.
  unfold scan_number.
  destruct (match_number s) as [[[i b] r']|] eqn:M; [|discriminate].
  apply match_number_suffix in M.
  destruct b; intro H; injection H as <- <-; now split.
Qed.

Lemma scan_number_unicode s (v : json) r :
  scan_number s = Some (v, r) ->
  unicode_text s = true -> unicode_text r = true /\ representable v = true.
Proof.
  intros H Hs. apply scan_number_suffix in H.
  destruct H as (Hv & c & p & ->). split; [|exact Hv].
  change (c :: p ++ r) with ((c :: p) ++ r) in Hs.
  unfold unicode_text in *. rewrite forallb_app in Hs.
  now apply andb_true_iff in Hs.
Qed.

Lemma NoDup_distinct_keys ks : NoDup ks -> distinct_keys ks = true.
Proof.
  induction 1 as [|k ks Hin _ IH]; [reflexivity|].
  cbn. rewrite IH, andb_true_r. apply negb_true_iff.
  destruct (existsb (str_eqb k) ks) eqn:E; [|reflexivity].
  apply existsb_exists in E. destruct E as (k' & Hk' & E).
  apply str_eqb_eq in E. subst k'. contradiction.
Qed.

Lemma dict_set_map_fst (d : list (str * json)) k v :
  map fst (dict_set d k v) = map fst d
  \/ (~ In k (map fst d) /\ map fst (dict_set d k v) = map fst d ++ [k]).
Proof.
  induction d as [|[k' v'] d IH]; cbn.
  - right. split; [tauto|reflexivity].
  - destruct (str_eqb k' k) eqn:E; [now left|].
    destruct IH as [IH|[Hout IH]]; cbn; rewrite IH; [now left|].
    right. split; [|reflexivity].
    intros [->|Hin]; [|contradiction].
    now rewrite str_eqb_refl in E.
Qed.

Lemma dict_set_representable (d : list (str * json)) k v :
  NoDup (map fst d) /\ forallb representable_item d = true ->
  representable_item (k, v) = true ->
  NoDup (map fst (dict_set d k v))
  /\ forallb representable_item (dict_set d k v) = true.
Proof.
  intros [Hn Hf] Hkv. split.
  - destruct (dict_set_map_fst d k v) as [->|[Hout ->]]; [exact Hn|].
    apply NoDup_app; [exact Hn|repeat constructor; auto|].
    intros x Hx [<-|[]]. contradiction.
  - clear Hn. induction d as [|[k' v'] d IH]; cbn in *.
    + now rewrite Hkv.
    + apply andb_true_iff in Hf. destruct Hf as [Hkv' Hf].
      destruct (str_eqb k' k) eqn:E; cbn.
      * apply str_eqb_eq in E. subst k'. now rewrite Hkv, Hf.
      * now rewrite Hkv', IH.
Qed.

Lemma dict_of_pairs_representable (pairs : list (str * json)) :
  forallb representable_item pairs = true ->
  representable (JDict (dict_of_pairs pairs)) = true.
Proof.
  intro H. unfold dict_of_pairs.
  assert (G : forall acc,
             NoDup (map fst acc) /\ forallb representable_item acc = true ->
             let d := fold_left (fun d kv => dict_set d (fst kv) (snd kv))
                                pairs acc in
             NoDup (map fst d) /\ forallb representable_item d = true).
  { induction pairs as [|[k v] pairs IH]; intros acc Hacc; [exact Hacc|].
    cbn in H. apply andb_true_iff in H. destruct H as [Hkv H].
    cbn. apply (IH H). now apply dict_set_representable. }
  destruct (G [] (conj (NoDup_nil _) eq_refl)) as [Hn Hf].
  cbn [representable]. rewrite (NoDup_distinct_keys _ Hn). exact Hf.
Qed.

Lemma array_loop_representable scan :
  builds_representable scan ->
  forall n values s v rest,
    forallb representable values = true ->
    unicode_text s = true ->
    JSONArray_loop scan n values s = Ok (v, rest) ->
    representable v = true /\ unicode_text rest = true.
Proof.
  intros Hscan. induction n as [|n IH]; intros values s v rest Hv Hs H;
    [discriminate|].
  cbn [JSONArray_loop] in H.
  destruct (scan s) as [[value s1]|e] eqn:E; [|destruct e; discriminate].
  destruct (Hscan _ _ _ Hs E) as [Hval Hs1].
  assert (Hvs : forallb representable (values ++ [value]) = true).
  { rewrite forallb_app, Hv. cbn. now rewrite Hval. }
  pose proof (skip_ws_unicode s1 Hs1) as Hsk.
  destruct (skip_ws s1) as [|c r]; [discriminate|].
  apply unicode_text_cons in Hsk. destruct Hsk as (_ & _ & _ & Hr).
  destruct (c =? 93).
  - injection H as <- <-. auto.
  - destruct (c =? 44); [|discriminate].
    apply (IH _ _ _ _ Hvs (skip_ws_unicode r Hr) H).
Qed.

Lemma object_loop_representable scan :
  builds_representable scan ->
  forall n pairs s v rest,
    forallb representable_item pairs = true ->
    unicode_text s = true ->
    JSONObject_loop scan n pairs s = Ok (v, rest) ->
    representable v = true /\ unicode_text rest = true.
Proof.
  intros Hscan. induction n as [|n IH]; intros pairs s v rest Hp Hs H;
    [discriminate|].
  cbn [JSONObject_loop] in H.
  destruct (scanstring s) as [[key s1]|e] eqn:K; [|discriminate].
  destruct (scanstring_well_formed _ _ _ Hs K) as [Hkey Hs1].
  pose proof (skip_ws_unicode s1 Hs1) as Hsk.
  destruct (skip_ws s1) as [|c r]; [discriminate|].
  apply unicode_text_cons in Hsk. destruct Hsk as (_ & _ & _ & Hr).
  destruct (c =? 58); [|discriminate].
  destruct (scan (skip_ws r)) as [[value s2]|e] eqn:E;
    [|destruct e; discriminate].
  destruct (Hscan _ _ _ (skip_ws_unicode r Hr) E) as [Hval Hs2].
  assert (Hps : forallb representable_item (pairs ++ [(key, value)]) = true).
  { rewrite forallb_app, Hp. unfold representable_item. cbn.
    now rewrite Hkey, Hval. }
  pose proof (skip_ws_unicode s2 Hs2) as Hsk2.
  destruct (skip_ws s2) as [|c' r']; [discriminate|].
  apply unicode_text_cons in Hsk2. destruct Hsk2 as (_ & _ & _ & Hr').
  destruct (c' =? 125).
  - injection H as <- <-. split; [|exact Hr'].
    now apply dict_of_pairs_representable.
  - destruct (c' =? 44); [|discriminate].
    pose proof (skip_ws_unicode r' Hr') as Hsk3.
    destruct (skip_ws r') as [|q r'']; [discriminate|].
    apply unicode_text_cons in Hsk3. destruct Hsk3 as (_ & _ & _ & Hr'').
    destruct (q =? 34); [|discriminate].
    apply (IH _ _ _ _ Hps Hr'' H).
Qed.

Lemma scan_once_representable fuel : builds_representable (scan_once fuel).
Proof.
  induction fuel as [|f IH]; intros s v rest Hs H; [discriminate|].
  cbn [scan_once] in H.
  destruct s as [|c r]; [discriminate|].
  pose proof Hs as Hs'. apply unicode_text_cons in Hs'.
  destruct Hs' as (_ & _ & _ & Hr).
  destruct (c =? 34).
  { destruct (scanstring r) as [[x r']|e] eqn:K; [|discriminate].
    injection H as <- <-. now apply (scanstring_well_formed _ _ _ Hr K). }
  destruct (c =? 123).
  { unfold JSONObject in H.
    pose proof (skip_ws_unicode r Hr) as Hsk.
    destruct (skip_ws r) as [|q r']; [discriminate|].
    apply unicode_text_cons in Hsk. destruct Hsk as (_ & _ & _ & Hr').
    destruct (q =? 34).
    - apply (object_loop_representable _ IH f [] r' v rest eq_refl Hr' H).
    - destruct (q =? 125); [|discriminate].
      injection H as <- <-. auto. }
  destruct (c =? 91).
  { unfold JSONArray in H.
    pose proof (skip_ws_unicode r Hr) as Hsk.
    destruct (skip_ws r) as [|q r'] eqn:Q.
    - apply (array_loop_representable _ IH f [] [] v rest eq_refl eq_refl H).
    - destruct (q =? 93).
      + injection H as <- <-. apply unicode_text_cons in Hsk. tauto.
      + apply (array_loop_representable _ IH f [] _ v rest eq_refl Hsk H). }
  destruct (strip_prefix (txt "null") (c :: r)) as [r'|] eqn:P1.
  { injection H as <- <-. split; [reflexivity|].
    apply (strip_prefix_unicode _ _ _ P1 Hs). }
  destruct (strip_prefix (txt "true") (c :: r)) as [r'|] eqn:P2.
  { injection H as <- <-. split; [reflexivity|].
    apply (strip_prefix_unicode _ _ _ P2 Hs). }
  destruct (strip_prefix (txt "false") (c :: r)) as [r'|] eqn:P3.
  { injection H as <- <-. split; [reflexivity|].
    apply (strip_prefix_unicode _ _ _ P3 Hs). }
  destruct (scan_number (c :: r)) as [[number r']|] eqn:Nm.
  - injection H as <- <-.
    destruct (scan_number_unicode _ _ _ Nm Hs). now split.
  - destruct (strip_prefix (txt "NaN") (c :: r)) as [r'|] eqn:P4.
    { injection H as <- <-. split; [reflexivity|].
      apply (strip_prefix_unicode _ _ _ P4 Hs). }
    destruct (strip_prefix (txt "Infinity") (c :: r)) as [r'|] eqn:P5.
    { injection H as <- <-. split; [reflexivity|].
      apply (strip_prefix_unicode _ _ _ P5 Hs). }
    destruct (strip_prefix (txt "-Infinity") (c :: r)) as [r'|] eqn:P6.
    { injection H as <- <-. split; [reflexivity|].
      apply (strip_prefix_unicode _ _ _ P6 Hs). }
    discriminate.
Qed.

Lemma json_loads_representable t v :
  unicode_text t = true -> json_loads t = Ok v -> representable v = true.
Proof.
  intros Ht H. unfold json_loads in H.
  destruct (strip_prefix [65279] t); [discriminate|].
  unfold decode in H.
  destruct (scan_once (S (List.length t)) (skip_ws t)) as [[obj r]|e] eqn:E;
    [|destruct e; discriminate].
  destruct (scan_once_representable _ _ _ _ (skip_ws_unicode t Ht) E)
    as [Hv _].
  destruct (skip_ws r); [|discriminate]. now injection H as <-.
Qed.

(** ** The codec: the fuel of [decode] is enough *)

Lemma skip_ws_length s : (List.length (skip_ws s) <= List.length s)%nat.
Proof.
  induction s as [|c s IH]; [reflexivity|]. cbn [skip_ws].
  destruct (is_ws c); cbn [List.length]; lia.
Qed.

Lemma decode_uXXXX_length s uni r :
  decode_uXXXX s = Ok (uni, r) -> (List.length r < List.length s)%nat.
Proof.
  intro H. apply decode_uXXXX_inv in H.
  destruct H as (_ & a & b & c & d & ->). cbn [List.length]. lia.
Qed.

Lemma strip_prefix_length p s r :
  strip_prefix p s = Some r -> (List.length r + List.length p = List.length s)%nat.
Proof.
  revert s; induction p as [|x p IH]; intros s H; cbn in H.
  - injection H as <-. cbn. lia.
  - destruct s as [|c s]; [discriminate|].
    destruct (x =? c); [|discriminate].
    apply IH in H. cbn [List.length]. lia.
Qed.

Lemma scanstring_loop_length n :
  forall chunks s out rest,
    scanstring_loop n chunks s = Ok (out, rest) ->
    (List.length rest < List.length s)%nat.
Proof.
  induction n as [|n IH]; intros chunks s out rest H; [discriminate|].
  cbn [scanstring_loop] in H.
  destruct s as [|c r]; [discriminate|]. cbn [List.length].
  destruct (c =? 34); [injection H as <- <-; lia|].
  destruct (c =? 92).
  - destruct r as [|esc r1]; [discriminate|]. cbn [List.length].
    destruct (esc =? 117).
    + destruct (decode_uXXXX r1) as [[uni r2]|e] eqn:D; [|discriminate].
      apply decode_uXXXX_length in D.
      destruct (is_high_surrogate uni);
        [|apply IH in H; lia].
      destruct (strip_prefix [92; 117] r2) as [r3|] eqn:P;
        [|apply IH in H; lia].
      apply strip_prefix_length in P.
      destruct (decode_uXXXX r3) as [[uni2 r4]|e] eqn:D2; [|discriminate].
      apply decode_uXXXX_length in D2.
      destruct (is_low_surrogate uni2); apply IH in H; lia.
    + destruct (BACKSLASH esc); [|discriminate]. apply IH in H. lia.
  - destruct (c <? 32); [discriminate|]. apply IH in H. lia.
Qed.

Lemma scan_digits_length s :
  (List.length (snd (scan_digits s)) <= List.length s)%nat.
Proof.
  induction s as [|c s IH]; [reflexivity|]. cbn [scan_digits].
  destruct (digit_of c); [|reflexivity].
  destruct (scan_digits s) as [d r']. cbn [snd List.length] in *. lia.
Qed.

Lemma match_digits_length s d r :
  match_digits s = Some (d, r) -> (List.length r < List.length s)%nat.
Proof.
  unfold match_digits. destruct s as [|c s]; [discriminate|].
  cbn [List.length].
  destruct (c =? 48); [intro H; injection H as <- <-; lia|].
  destruct (digit_of c); [|discriminate].
  pose proof (scan_digits_length s) as L.
  destruct (scan_digits s) as [d' r']. cbn [snd] in L.
  intro H; injection H as <- <-. lia.
Qed.

Lemma scan_number_length s (v : json) r :
  scan_number s = Some (v, r) -> (List.length r < List.length s)%nat.
Proof.
  intro H. apply scan_number_suffix in H.
  destruct H as (_ & c & p & ->). cbn [List.length].
  rewrite length_app. lia.
Qed.

Lemma decode_uXXXX_error s e :
  decode_uXXXX s = Raise e -> e = JSONDecodeError "Invalid \uXXXX escape".
Proof.
  unfold decode_uXXXX.
  destruct s as [|a [|b [|c [|d [|x r]]]]]; try (intro H; now injection H).
  destruct (hexval a), (hexval b), (hexval c), (hexval d);
    intro H; try discriminate; now injection H.
Qed.

Lemma scanstring_loop_no_recursion n :
  forall chunks s, scanstring_loop n chunks s <> Raise RecursionError.
Proof.
  induction n as [|n IH]; intros chunks s; [discriminate|].
  cbn [scanstring_loop].
  destruct s as [|c r]; [discriminate|].
  destruct (c =? 34); [discriminate|].
  destruct (c =? 92).
  - destruct r as [|esc r1]; [discriminate|].
    destruct (esc =? 117).
    + destruct (decode_uXXXX r1) as [[uni r2]|e] eqn:D.
      * destruct (is_high_surrogate uni); [|apply IH].
        destruct (strip_prefix [92; 117] r2) as [r3|]; [|apply IH].
        destruct (decode_uXXXX r3) as [[uni2 r4]|e] eqn:D2.
        -- destruct (is_low_surrogate uni2); apply IH.
        -- apply decode_uXXXX_error in D2. subst e. discriminate.
      * apply decode_uXXXX_error in D. subst e. discriminate.
    + destruct (BACKSLASH esc); [apply IH|discriminate].
  - destruct (c <? 32); [discriminate|apply IH].
Qed.

Lemma array_loop_forward scan :
  reads_forward scan ->
  forall n values s v rest,
    JSONArray_loop scan n values s = Ok (v, rest) ->
    (List.length rest < List.length s)%nat.
Proof.
  intros Hlen. induction n as [|n IH]; intros values s v rest H;
    [discriminate|].
  cbn [JSONArray_loop] in H.
  destruct (scan s) as [[value s1]|e] eqn:E; [|destruct e; discriminate].
  apply Hlen in E.
  pose proof (skip_ws_length s1) as L1.
  destruct (skip_ws s1) as [|c r]; [discriminate|].
  cbn [List.length] in L1.
  destruct (c =? 93); [injection H as <- <-; lia|].
  destruct (c =? 44); [|discriminate].
  apply IH in H. pose proof (skip_ws_length r). lia.
Qed.

Lemma object_loop_forward scan :
  reads_forward scan ->
  forall n pairs s v rest,
    JSONObject_loop scan n pairs s = Ok (v, rest) ->
    (List.length rest < List.length s)%nat.
Proof.
  intros Hlen. induction n as [|n IH]; intros pairs s v rest H;
    [discriminate|].
  cbn [JSONObject_loop] in H.
  destruct (scanstring s) as [[key s1]|e] eqn:K; [|discriminate].
  apply scanstring_loop_length in K.
  pose proof (skip_ws_length s1) as L1.
  destruct (skip_ws s1) as [|c r]; [discriminate|].
  cbn [List.length] in L1.
  destruct (c =? 58); [|discriminate].
  pose proof (skip_ws_length r) as L2.
  destruct (scan (skip_ws r)) as [[value s2]|e] eqn:E;
    [|destruct e; discriminate].
  apply Hlen in E.
  pose proof (skip_ws_length s2) as L3.
  destruct (skip_ws s2) as [|c' r']; [discriminate|].
  cbn [List.length] in L3.
  destruct (c' =? 125); [injection H as <- <-; lia|].
  destruct (c' =? 44); [|discriminate].
  pose proof (skip_ws_length r') as L4.
  destruct (skip_ws r') as [|q r'']; [discriminate|].
  cbn [List.length] in L4.
  destruct (q =? 34); [|discriminate].
  apply IH in H. lia.
Qed.

Lemma scan_once_forward fuel : reads_forward (scan_once fuel).
Proof.
  induction fuel as [|f IH]; intros s v rest H; [discriminate|].
  cbn [scan_once] in H.
  destruct s as [|c r]; [discriminate|]. cbn [List.length].
  destruct (c =? 34).
  { destruct (scanstring r) as [[x r']|e] eqn:K; [|discriminate].
    apply scanstring_loop_length in K. injection H as <- <-. lia. }
  destruct (c =? 123).
  { unfold JSONObject in H.
    pose proof (skip_ws_length r) as L.
    destruct (skip_ws r) as [|q r']; [discriminate|].
    cbn [List.length] in L.
    destruct (q =? 34).
    - apply (object_loop_forward _ IH) in H. lia.
    - destruct (q =? 125); [|discriminate]. injection H as <- <-. lia. }
  destruct (c =? 91).
  { unfold JSONArray in H.
    pose proof (skip_ws_length r) as L.
    destruct (skip_ws r) as [|q r'] eqn:Q.
    - apply (array_loop_forward _ IH) in H. cbn in H. lia.
    - cbn [List.length] in L. destruct (q =? 93).
      + injection H as <- <-. lia.
      + apply (array_loop_forward _ IH) in H. cbn [List.length] in H. lia. }
  destruct (strip_prefix (txt "null") (c :: r)) as [r'|] eqn:P1.
  { injection H as <- <-. apply strip_prefix_length in P1. cbn in P1. lia. }
  destruct (strip_prefix (txt "true") (c :: r)) as [r'|] eqn:P2.
  { injection H as <- <-. apply strip_prefix_length in P2. cbn in P2. lia. }
  destruct (strip_prefix (txt "false") (c :: r)) as [r'|] eqn:P3.
  { injection H as <- <-. apply strip_prefix_length in P3. cbn in P3. lia. }
  destruct (scan_number (c :: r)) as [[number r']|] eqn:Nm.
  - injection H as <- <-. apply scan_number_length in Nm. exact Nm.
  - destruct (strip_prefix (txt "NaN") (c :: r)) as [r'|] eqn:P4.
    { injection H as <- <-. apply strip_prefix_length in P4.
      cbn in P4. lia. }
    destruct (strip_prefix (txt "Infinity") (c :: r)) as [r'|] eqn:P5.
    { injection H as <- <-. apply strip_prefix_length in P5.
      cbn in P5. lia. }
    destruct (strip_prefix (txt "-Infinity") (c :: r)) as [r'|] eqn:P6.
    { injection H as <- <-. apply strip_prefix_length in P6.
      cbn in P6. lia. }
    discriminate.
Qed.

Lemma array_loop_within bound scan :
  reads_forward scan -> scans_within bound scan ->
  forall n values s,
    (List.length s < bound)%nat ->
    (List.length s < n)%nat ->
    JSONArray_loop scan n values s <> Raise RecursionError.
Proof.
  intros Hlen Hfuel. induction n as [|n IH]; intros values s Hb Hn; [lia|].
  cbn [JSONArray_loop].
  specialize (Hfuel s Hb).
  destruct (scan s) as [[value s1]|e] eqn:E.
  - apply Hlen in E.
    pose proof (skip_ws_length s1) as L1.
    destruct (skip_ws s1) as [|c r]; [discriminate|].
    cbn [List.length] in L1.
    destruct (c =? 93); [discriminate|].
    destruct (c =? 44); [|discriminate].
    pose proof (skip_ws_length r) as L2.
    apply IH; lia.
  - destruct e; try discriminate. congruence.
Qed.

Lemma object_loop_within bound scan :
  reads_forward scan -> scans_within bound scan ->
  forall n pairs s,
    (List.length s < bound)%nat ->
    (List.length s < n)%nat ->
    JSONObject_loop scan n pairs s <> Raise RecursionError.
Proof.
  intros Hlen Hfuel. induction n as [|n IH]; intros pairs s Hb Hn; [lia|].
  cbn [JSONObject_loop].
  destruct (scanstring s) as [[key s1]|e] eqn:K.
  2:{ intro Q. injection Q as ->.
      now apply scanstring_loop_no_recursion in K. }
  apply scanstring_loop_length in K.
  pose proof (skip_ws_length s1) as L1.
  destruct (skip_ws s1) as [|c r]; [discriminate|].
  cbn [List.length] in L1.
  destruct (c =? 58); [|discriminate].
  pose proof (skip_ws_length r) as L2.
  assert (Hb2 : (List.length (skip_ws r) < bound)%nat) by lia.
  specialize (Hfuel _ Hb2).
  destruct (scan (skip_ws r)) as [[value s2]|e] eqn:E.
  2:{ destruct e; try discriminate. congruence. }
  apply Hlen in E.
  pose proof (skip_ws_length s2) as L3.
  destruct (skip_ws s2) as [|c' r']; [discriminate|].
  cbn [List.length] in L3.
  destruct (c' =? 125); [discriminate|].
  destruct (c' =? 44); [|discriminate].
  pose proof (skip_ws_length r') as L4.
  destruct (skip_ws r') as [|q r'']; [discriminate|].
  cbn [List.length] in L4.
  destruct (q =? 34); [|discriminate].
  apply IH; lia.
Qed.

Lemma scan_once_within fuel : scans_within fuel (scan_once fuel).
Proof.
  induction fuel as [|f IH]; intros s Hs; [lia|].
  cbn [scan_once].
  destruct s as [|c r]; [discriminate|]. cbn [List.length] in Hs.
  destruct (c =? 34).
  { destruct (scanstring r) as [[x r']|e] eqn:K; [discriminate|].
    intro Q. injection Q as ->.
    now apply scanstring_loop_no_recursion in K. }
  pose proof (skip_ws_length r) as L.
  destruct (c =? 123).
  { unfold JSONObject.
    destruct (skip_ws r) as [|q r']; [discriminate|].
    cbn [List.length] in L.
    destruct (q =? 34).
    - apply (object_loop_within f _ (scan_once_forward f) IH); lia.
    - destruct (q =? 125); discriminate. }
  destruct (c =? 91).
  { unfold JSONArray.
    destruct (skip_ws r) as [|q r'] eqn:Q.
    - apply (array_loop_within f _ (scan_once_forward f) IH); cbn; lia.
    - destruct (q =? 93); [discriminate|].
      apply (array_loop_within f _ (scan_once_forward f) IH); lia. }
  destruct (strip_prefix (txt "null") (c :: r)); [discriminate|].
  destruct (strip_prefix (txt "true") (c :: r)); [discriminate|].
  destruct (strip_prefix (txt "false") (c :: r)); [discriminate|].
  destruct (scan_number (c :: r)) as [[number r']|].
  - discriminate.
  - destruct (strip_prefix (txt "NaN") (c :: r)),
      (strip_prefix (txt "Infinity") (c :: r)),
      (strip_prefix (txt "-Infinity") (c :: r)); discriminate.
Qed.

(** [json.loads] does not run out of the fuel it gives [scan_once]. *)
Lemma json_loads_fuel s : json_loads s <> Raise RecursionError.
Proof.
  unfold json_loads, decode.
  destruct (strip_prefix [65279] s); [discriminate|].
  pose proof (skip_ws_length s) as L.
  pose proof (scan_once_within (S (List.length s)) (skip_ws s)
                ltac:(lia)) as H.
  destruct (scan_once (S (List.length s)) (skip_ws s)) as [[obj r]|e].
  - destruct (skip_ws r); discriminate.
  - destruct e; try discriminate. congruence.
Qed.

(** ** The codec: round trip *)

(** A number with a fraction or an exponent is read through [float], and
    the three constants are the special floats. *)
Example fractions_are_floats :
  json_loads (txt "1.5") = Ok (JFloat (float_of_str (txt "1.5")))
  /\ json_loads (txt "[1, 2.50, -3e2]")
     = Ok (JList [JInt 1; JFloat (float_of_str (txt "2.50"));
                  JFloat (float_of_str (txt "-3e2"))])
  /\ json_loads (txt "NaN") = Ok (JFloat float_nan)
  /\ json_loads (txt "Infinity") = Ok (JFloat float_inf)
  /\ json_loads (txt "-Infinity") = Ok (JFloat float_neginf).
Proof. repeat split. Qed.

(** A text that ends with the four digits of an escape is refused for the
    escape; one that ends after a whole string without its closing quote,
    for the string. *)
Example escape_at_the_end :
  json_loads (34 :: txt "\u0041")
  = Raise (JSONDecodeError "Invalid \uXXXX escape")
  /\ json_loads (34 :: txt "A")
     = Raise (JSONDecodeError "Unterminated string starting at").
Proof. split; reflexivity. Qed.

(** C8 (as amended): for every JSON value [v] ([None], a [bool], an [int],
    a [float], a [str] in which no high surrogate stands directly before a
    low one, a [list] or a [dict] with [str] keys of such values),
    [decode(encode(v))] is [v], in both JSON classes; hence for the text
    [x] that [encode] writes for [v], [encode(decode(x))] is [x].  A float
    is written by [float.__repr__] and read by [float], which the
    interpreter guarantees to give the same float; a NaN reads back as
    NaN. *)
Theorem codec_round_trip (v : json) :
  representable v = true ->
  JsonWebsocketConsumer.decode_json
    (Some (JsonWebsocketConsumer.encode_json v)) = Ok v
  /\ AsyncJsonWebsocketConsumer.decode_json
       (Some (AsyncJsonWebsocketConsumer.encode_json v)) = Ok v
  /\ (forall x v',
        x = JsonWebsocketConsumer.encode_json v ->
        JsonWebsocketConsumer.decode_json (Some x) = Ok v' ->
        JsonWebsocketConsumer.encode_json v' = x).
Proof.
  intro Hr.
  pose proof (json_loads_dumps v Hr) as H.
  split; [exact H|]. split; [exact H|].
  intros x v' -> Hx.
  unfold JsonWebsocketConsumer.decode_json, JsonWebsocketConsumer.encode_json
    in *.
  rewrite H in Hx. now injection Hx as <-.
Qed.

(** Why a string has to be well formed: a high surrogate directly before a
    low one is written as two escapes, which read back as the one character
    of the pair. *)
Example surrogate_pair_is_joined :
  well_formed_str [55296; 56320] = false
  /\ json_loads (json_dumps (JStr [55296; 56320])) = Ok (JStr [65536]).
Proof. split; reflexivity. Qed.

(** A Unicode text that decodes, decodes to a value that the codec carries
    unchanged: what [encode] writes for it decodes to it again. *)
Lemma decoded_value_round_trips (x : str) (v : json) :
  unicode_text x = true ->
  json_loads x = Ok v ->
  representable v = true /\ json_loads (json_dumps v) = Ok v.
Proof.
  intros Hx H.
  pose proof (json_loads_representable x v Hx H) as Hr.
  split; [exact Hr|]. now apply json_loads_dumps.
Qed.

(** ** Group membership *)

Section Groups.
Variable self : consumer.

Lemma record_calls_nil w : record_calls [] w = w.
Proof. destruct w; unfold record_calls; simpl; now rewrite List.app_nil_r. Qed.

Lemma record_calls_cons c cs w :
  record_calls cs (record_calls [c] w) = record_calls (c :: cs) w.
Proof.
  destruct w; unfold record_calls; simpl; now rewrite <- List.app_assoc.
Qed.

(** With a layer that has the group methods, the loop over the groups
    calls the layer once for each group, in order, and raises nothing. *)
Lemma group_add_loop gs name w :
  for_each gs (fun group =>
     group_add <- ChannelLayer.group_add (Layer true) ;;
     group_add group name) w
  = (Ok tt, record_calls (map (fun g => group_add_call g name) gs) w).
Proof.
  revert w; induction gs as [|g gs IH]; intro w; simpl.
  - now rewrite record_calls_nil.
  - unfold bind at 1; simpl. rewrite IH. now rewrite record_calls_cons.
Qed.

Lemma group_discard_loop gs name w :
  for_each gs (fun group =>
     group_discard <- ChannelLayer.group_discard (Layer true) ;;
     group_discard group name) w
  = (Ok tt, record_calls (map (fun g => group_discard_call g name) gs) w).
Proof.
  revert w; induction gs as [|g gs IH]; intro w; simpl.
  - now rewrite record_calls_nil.
  - unfold bind at 1; simpl. rewrite IH. now rewrite record_calls_cons.
Qed.

(** Without the group methods the first round of the loop raises
    [AttributeError], before any call reaches the layer. *)
Lemma group_add_unsupported [layer] g gs name w :
  layer <> Layer true ->
  for_each (g :: gs) (fun group =>
     group_add <- ChannelLayer.group_add layer ;;
     group_add group name) w
  = (Raise (AttributeError "group_add"), w).
Proof.
  intro H; simpl; unfold bind.
  destruct layer as [|[|]]; try reflexivity. now elim H.
Qed.

Lemma group_discard_unsupported [layer] g gs name w :
  layer <> Layer true ->
  for_each (g :: gs) (fun group =>
     group_discard <- ChannelLayer.group_discard layer ;;
     group_discard group name) w
  = (Raise (AttributeError "group_discard"), w).
Proof.
  intro H; simpl; unfold bind.
  destruct layer as [|[|]]; try reflexivity. now elim H.
Qed.

Hypothesis groups_usable :
  groups self = [] \/ the_channel_layer self = Layer true.

Lemma sync_connect_after_adds message w :
  WebsocketConsumer.websocket_connect self message w
  = try_except (connect self)
      (on_connect_signal WebsocketConsumer.accept WebsocketConsumer.close)
      (after_group_calls group_add_call self w).
Proof.
  unfold WebsocketConsumer.websocket_connect, after_group_calls.
  unfold bind at 1, try_except at 1.
  destruct groups_usable as [E|E]; rewrite E.
  - simpl. now rewrite record_calls_nil.
  - now rewrite group_add_loop.
Qed.

Lemma async_connect_after_adds message w :
  AsyncWebsocketConsumer.websocket_connect self message w
  = try_except (connect self)
      (on_connect_signal AsyncWebsocketConsumer.accept
                         AsyncWebsocketConsumer.close)
      (after_group_calls group_add_call self w).
Proof.
  unfold AsyncWebsocketConsumer.websocket_connect, after_group_calls.
  unfold bind at 1, try_except at 1.
  destruct groups_usable as [E|E]; rewrite E.
  - simpl. now rewrite record_calls_nil.
  - now rewrite group_add_loop.
Qed.

Lemma sync_disconnect_after_discards message w :
  WebsocketConsumer.websocket_disconnect self message w
  = (code <- getitem (msg_code message) "code" ;;
     disconnect self code ;;
     raise StopConsumer)
      (after_group_calls group_discard_call self w).
Proof.
  unfold WebsocketConsumer.websocket_disconnect, after_group_calls.
  unfold bind at 1, try_except at 1.
  destruct groups_usable as [E|E]; rewrite E.
  - simpl. now rewrite record_calls_nil.
  - now rewrite group_discard_loop.
Qed.

Lemma async_disconnect_after_discards message w :
  AsyncWebsocketConsumer.websocket_disconnect self message w
  = (code <- getitem (msg_code message) "code" ;;
     disconnect self code ;;
     raise StopConsumer)
      (after_group_calls group_discard_call self w).
Proof.
  unfold AsyncWebsocketConsumer.websocket_disconnect, after_group_calls.
  unfold bind at 1, try_except at 1.
  destruct groups_usable as [E|E]; rewrite E.
  - simpl. now rewrite record_calls_nil.
  - now rewrite group_discard_loop.
Qed.

End Groups.

(** ** The lifecycle machine *)

(** The two conventions are one machine: a coroutine of the asynchronous
    class is, as a method of the monad, the method of the synchronous
    class. *)
Lemma async_lifecycle_is_sync :
  AsyncWebsocketConsumer.websocket_connect
  = WebsocketConsumer.websocket_connect
  /\ AsyncWebsocketConsumer.websocket_receive
     = WebsocketConsumer.websocket_receive
  /\ AsyncWebsocketConsumer.websocket_disconnect
     = WebsocketConsumer.websocket_disconnect
  /\ AsyncWebsocketConsumer.send = WebsocketConsumer.send
  /\ AsyncWebsocketConsumer.close = WebsocketConsumer.close
  /\ AsyncJsonWebsocketConsumer.receive = JsonWebsocketConsumer.receive.
Proof. repeat split. Qed.

Lemma skipn_length_app {A : Type} (l l' : list A) :
  skipn (List.length l) (l ++ l') = l'.
Proof. induction l; simpl; auto. Qed.

(** C4 (as amended): with the groups joined, when the [connect] of the
    application raises the accept signal the machine emits [accept], when it
    raises the deny signal the machine emits [close], and when it returns
    the machine emits nothing of its own: the world is the one [connect]
    left.  The [connect] of the class, which an application that does not
    override it runs, accepts itself. *)
Theorem connect_signals (self : consumer) (message : message) (w w' : world) :
  groups self = [] \/ the_channel_layer self = Layer true ->
  let w1 := after_group_calls group_add_call self w in
  (connect self w1 = (Raise AcceptConnection, w') ->
     WebsocketConsumer.websocket_connect self message w
       = (Ok tt, emit accept_event w')
     /\ AsyncWebsocketConsumer.websocket_connect self message w
       = (Ok tt, emit accept_event w'))
  /\ (connect self w1 = (Raise DenyConnection, w') ->
     WebsocketConsumer.websocket_connect self message w
       = (Ok tt, emit close_event w')
     /\ AsyncWebsocketConsumer.websocket_connect self message w
       = (Ok tt, emit close_event w'))
  /\ (connect self w1 = (Ok tt, w') ->
     WebsocketConsumer.websocket_connect self message w = (Ok tt, w')
     /\ AsyncWebsocketConsumer.websocket_connect self message w = (Ok tt, w'))
  /\ WebsocketConsumer.default_connect w1 = (Ok tt, emit accept_event w1)
  /\ AsyncWebsocketConsumer.default_connect w1 = (Ok tt, emit accept_event w1).
Proof.
  intros Hg w1.
  repeat match goal with |- _ /\ _ => split end; try reflexivity;
    intro Hc;
    rewrite (sync_connect_after_adds self Hg),
            (async_connect_after_adds self Hg);
    unfold try_except; fold w1; rewrite Hc; split; reflexivity.
Qed.

(** C5: with a layer that has the group methods, [websocket_connect] is the
    [connect] of the application, with its signals handled, run in the
    world where the layer has received [group_add(g, channel_name)] for each
    declared group in order, and [websocket_disconnect] is the [disconnect]
    of the application run in the world where the layer has received
    [group_discard(g, channel_name)] for each declared group; with no
    declared group that world is the one the event found, whatever the
    layer. *)
Theorem groups_before_hooks (self : consumer) (message : message) (w : world) :
  groups self = [] \/ the_channel_layer self = Layer true ->
  WebsocketConsumer.websocket_connect self message w
    = try_except (connect self)
        (on_connect_signal WebsocketConsumer.accept WebsocketConsumer.close)
        (after_group_calls group_add_call self w)
  /\ AsyncWebsocketConsumer.websocket_connect self message w
    = try_except (connect self)
        (on_connect_signal AsyncWebsocketConsumer.accept
                           AsyncWebsocketConsumer.close)
        (after_group_calls group_add_call self w)
  /\ WebsocketConsumer.websocket_disconnect self message w
    = (code <- getitem (msg_code message) "code" ;;
       disconnect self code ;;
       raise StopConsumer)
        (after_group_calls group_discard_call self w)
  /\ AsyncWebsocketConsumer.websocket_disconnect self message w
    = (code <- getitem (msg_code message) "code" ;;
       disconnect self code ;;
       raise StopConsumer)
        (after_group_calls group_discard_call self w)
  /\ layer_calls (after_group_calls group_add_call self w)
     = layer_calls w
       ++ map (fun g => group_add_call g (channel_name self)) (groups self)
  /\ layer_calls (after_group_calls group_discard_call self w)
     = layer_calls w
       ++ map (fun g => group_discard_call g (channel_name self))
              (groups self)
  /\ (groups self = [] ->
      after_group_calls group_add_call self w = w
      /\ after_group_calls group_discard_call self w = w).
Proof.
  intro Hg.
  split; [apply (sync_connect_after_adds self Hg)|].
  split; [apply (async_connect_after_adds self Hg)|].
  split; [apply (sync_disconnect_after_discards self Hg)|].
  split; [apply (async_disconnect_after_discards self Hg)|].
  split; [reflexivity|]. split; [reflexivity|].
  intro E; unfold after_group_calls; rewrite E; simpl.
  now rewrite record_calls_nil.
Qed.

(** C6: with a declared group and a channel layer that is missing or has
    no group methods, [websocket_connect] and [websocket_disconnect] raise
    [InvalidChannelLayerError] (the configuration error of the
    specification) at once: no call has reached the layer and no method of
    the application has run. *)
Theorem groups_unsupported_fail_eagerly
    (self : consumer) (message : message) (w : world) :
  groups self <> [] ->
  the_channel_layer self <> Layer true ->
  let failure :=
    (@Raise unit (InvalidChannelLayerError
                    "BACKEND is unconfigured or doesn't support groups"), w) in
  WebsocketConsumer.websocket_connect self message w = failure
  /\ AsyncWebsocketConsumer.websocket_connect self message w = failure
  /\ WebsocketConsumer.websocket_disconnect self message w = failure
  /\ AsyncWebsocketConsumer.websocket_disconnect self message w = failure.
Proof.
  intros Hg Hl failure.
  unfold WebsocketConsumer.websocket_connect,
    AsyncWebsocketConsumer.websocket_connect,
    WebsocketConsumer.websocket_disconnect,
    AsyncWebsocketConsumer.websocket_disconnect.
  destruct (groups self) as [|g gs]; [now elim Hg|].
  repeat split; unfold bind at 1, try_except at 1;
    rewrite ?(group_add_unsupported g gs (channel_name self) w Hl),
            ?(group_discard_unsupported g gs (channel_name self) w Hl);
    simpl;
    reflexivity.
Qed.

(** ** Sending *)

Lemma sync_send_payload text_data bytes_data [payload] close_ w :
  match text_data, bytes_data with
  | Some _, _ => Some (Message "websocket.send" (Some text_data) None None)
  | None, Some _ => Some (Message "websocket.send" None (Some bytes_data) None)
  | None, None => None
  end = Some payload ->
  WebsocketConsumer.send text_data bytes_data close_ w
  = (Ok tt, World (outbound w ++ payload :: closing close_) (layer_calls w)
                  (children w) (upstream w) (waits w) (finishes w))
  /\ AsyncWebsocketConsumer.send text_data bytes_data close_ w
  = (Ok tt, World (outbound w ++ payload :: closing close_) (layer_calls w)
                  (children w) (upstream w) (waits w) (finishes w)).
Proof.
  intro H.
  unfold WebsocketConsumer.send, AsyncWebsocketConsumer.send,
    WebsocketConsumer.close, AsyncWebsocketConsumer.close, closing, bind.
  destruct text_data, bytes_data; inversion H; subst; simpl;
    destruct (truthy close_); simpl;
    try destruct (is_not_None close_ && is_not_True close_);
    unfold base_send, emit, ret; simpl;
    rewrite <- ?List.app_assoc; split; reflexivity.
Qed.

(** C9: [send] with neither [text_data] nor [bytes_data] raises
    [ValueError] and leaves the world as it was; with [text_data], or with
    [bytes_data] alone, it returns, and among the events it has emitted
    there is one [websocket.send], which carries that data. *)
Theorem send_needs_a_payload
    (t : str) (b : bytes) (bytes_data : option bytes) (close_ : pyval)
    (w : world) :
  let failure :=
    (@Raise unit (ValueError "You must pass one of bytes_data or text_data"),
     w) in
  (WebsocketConsumer.send None None close_ w = failure
   /\ AsyncWebsocketConsumer.send None None close_ w = failure)
  /\ (fst (WebsocketConsumer.send (Some t) bytes_data close_ w) = Ok tt
      /\ filter is_send
           (emitted_by (WebsocketConsumer.send (Some t) bytes_data close_) w)
         = [Message "websocket.send" (Some (Some t)) None None]
      /\ fst (AsyncWebsocketConsumer.send (Some t) bytes_data close_ w) = Ok tt
      /\ filter is_send
           (emitted_by (AsyncWebsocketConsumer.send (Some t) bytes_data close_)
                       w)
         = [Message "websocket.send" (Some (Some t)) None None])
  /\ (fst (WebsocketConsumer.send None (Some b) close_ w) = Ok tt
      /\ filter is_send
           (emitted_by (WebsocketConsumer.send None (Some b) close_) w)
         = [Message "websocket.send" None (Some (Some b)) None]
      /\ fst (AsyncWebsocketConsumer.send None (Some b) close_ w) = Ok tt
      /\ filter is_send
           (emitted_by (AsyncWebsocketConsumer.send None (Some b) close_) w)
         = [Message "websocket.send" None (Some (Some b)) None]).
Proof.
  intro failure.
  split; [split; reflexivity|].
  split.
  - destruct (sync_send_payload (Some t) bytes_data close_ w (payload := _) eq_refl)
      as [Hs Ha].
    unfold emitted_by; rewrite Hs, Ha; simpl.
    rewrite skipn_length_app; simpl.
    unfold closing; destruct (truthy close_); simpl; repeat split.
  - destruct (sync_send_payload None (Some b) close_ w (payload := _) eq_refl) as [Hs Ha].
    unfold emitted_by; rewrite Hs, Ha; simpl.
    rewrite skipn_length_app; simpl.
    unfold closing; destruct (truthy close_); simpl; repeat split.
Qed.

(** ** Receiving JSON *)

(** C7: a [receive] of a JSON consumer with bytes and no text raises the
    [ValueError] "No text section for incoming WebSocket frame!" (the
    protocol error of the specification) and leaves the world as it was,
    whatever [receive_json] is: it has not been called.  So does a
    [websocket.receive] event that has bytes only. *)
Theorem json_receive_rejects_bytes
    (base : consumer) (receive_json : json -> M unit) (b : bytes) (w : world) :
  let failure :=
    (@Raise unit (ValueError "No text section for incoming WebSocket frame!"),
     w) in
  JsonWebsocketConsumer.receive receive_json None (Some b) w = failure
  /\ AsyncJsonWebsocketConsumer.receive receive_json None (Some b) w = failure
  /\ WebsocketConsumer.websocket_receive (json_consumer base receive_json)
       (Message "websocket.receive" None (Some (Some b)) None) w = failure
  /\ AsyncWebsocketConsumer.websocket_receive
       (async_json_consumer base receive_json)
       (Message "websocket.receive" None (Some (Some b)) None) w = failure.
Proof. repeat split. Qed.

(** C10: a [receive] of a JSON consumer whose [text_data] is the empty
    string, with no bytes, raises the same [ValueError] without decoding the
    text or calling [receive_json]: the test is on the truth of [text_data].
    So does a [websocket.receive] event whose text is empty. *)
Theorem json_receive_rejects_empty_text
    (base : consumer) (receive_json : json -> M unit) (w : world) :
  let failure :=
    (@Raise unit (ValueError "No text section for incoming WebSocket frame!"),
     w) in
  JsonWebsocketConsumer.receive receive_json (Some []) None w = failure
  /\ AsyncJsonWebsocketConsumer.receive receive_json (Some []) None w = failure
  /\ WebsocketConsumer.websocket_receive (json_consumer base receive_json)
       (Message "websocket.receive" (Some (Some [])) None None) w = failure
  /\ AsyncWebsocketConsumer.websocket_receive
       (async_json_consumer base receive_json)
       (Message "websocket.receive" (Some (Some [])) None None) w = failure.
Proof. repeat split. Qed.

(** ** The demultiplexer *)

Lemma contains_In (d : list (str * json)) (key : str) :
  AsyncJsonWebsocketDemultiplexer.contains d key = true
  <-> In key (map fst d).
Proof.
  unfold AsyncJsonWebsocketDemultiplexer.contains.
  rewrite existsb_exists, in_map_iff.
  split.
  - intros [kv [H1 H2]]; exists kv. apply str_eqb_eq in H2. auto.
  - intros [kv [H1 H2]]; exists kv. split; [exact H2|].
    now apply str_eqb_eq.
Qed.

Lemma loads_nonempty (t : str) (content : json) :
  json_loads t = Ok content -> JsonWebsocketConsumer.truthy_text (Some t) = true.
Proof. destruct t; [discriminate | reflexivity]. Qed.

(** C2: for a decoded content that is not an object with both a ["stream"]
    and a ["payload"] key, [receive_json] of the demultiplexer raises the
    [ValueError] "Invalid multiplexed **frame received (no channel/payload
    key)" (the protocol error of the specification) and leaves the world,
    with the events dispatched to the children, as it was; so does the
    physical [websocket.receive] event whose text decodes to that
    content. *)
Theorem malformed_envelope_rejected
    (base : consumer) (content : json) (w : world) :
  ~ is_envelope content ->
  let failure :=
    (@Raise unit
       (ValueError
          "Invalid multiplexed **frame received (no channel/payload key)"),
     w) in
  AsyncJsonWebsocketDemultiplexer.receive_json content w = failure
  /\ forall t : str,
       json_loads t = Ok content ->
       AsyncWebsocketConsumer.websocket_receive (demultiplexer base)
         (Message "websocket.receive" (Some (Some t)) None None) w = failure.
Proof.
  intros Hne failure.
  assert (H : AsyncJsonWebsocketDemultiplexer.receive_json content w = failure).
  { unfold AsyncJsonWebsocketDemultiplexer.receive_json.
    destruct content as [| | | | | |d]; try reflexivity.
    destruct (AsyncJsonWebsocketDemultiplexer.contains d (txt "stream")
              && AsyncJsonWebsocketDemultiplexer.contains d (txt "payload"))
      eqn:E; [|reflexivity].
    apply andb_true_iff in E; destruct E as [E1 E2].
    elim Hne. exists d. rewrite <- !contains_In. auto. }
  split; [exact H|].
  intros t Ht.
  unfold AsyncWebsocketConsumer.websocket_receive, demultiplexer, receive,
    msg_text, AsyncJsonWebsocketDemultiplexer.receive,
    AsyncJsonWebsocketConsumer.receive.
  rewrite (loads_nonempty t content Ht).
  unfold bind, lift, AsyncJsonWebsocketConsumer.decode_json.
  rewrite Ht. exact H.
Qed.

(** With a running child, the physical [disconnect] is the [disconnect] of
    the consumer class run in the world where the event has been dispatched
    to every running child and [asyncio.wait] has been called, once, on the
    tasks of the children with the timeout of the class: whatever the
    scheduler says of the tasks, the groups are left, the [disconnect] of
    the application runs and [StopConsumer] ends the consumer. *)
Lemma demultiplexer_disconnect_with_children
    (self : consumer) (message : message) (w : world) :
  children w <> [] ->
  AsyncJsonWebsocketDemultiplexer.websocket_disconnect self message w
  = AsyncWebsocketConsumer.websocket_disconnect self message
      (World (outbound w) (layer_calls w) (children w)
             (upstream w ++ map (fun stream => (stream, message)) (children w))
             (waits w ++ [(children w, 5%Z)]) (finishes w)).
Proof.
  intro Hc.
  unfold AsyncJsonWebsocketDemultiplexer.websocket_disconnect.
  unfold bind at 1 2, try_except at 1; simpl.
  unfold bind at 1; simpl.
  destruct (children w) as [|c cs]; [now elim Hc|]. reflexivity.
Qed.

(** C3, where the code departs from it: with no running child,
    [asyncio.wait] refuses the empty collection of tasks; its [ValueError]
    is not the [TimeoutError] the [try] statement catches, so that the
    physical [disconnect] raises it, and neither the groups are left nor the
    [disconnect] of the application is run: the world is as it was. *)
Theorem demultiplexer_disconnect_without_children
    (self : consumer) (message : message) (w : world) :
  children w = [] ->
  AsyncJsonWebsocketDemultiplexer.websocket_disconnect self message w
  = (Raise (ValueError "Set of coroutines/Futures is empty."), w).
Proof.
  intro Hc.
  unfold AsyncJsonWebsocketDemultiplexer.websocket_disconnect.
  unfold bind at 1 2, try_except at 1; simpl.
  unfold bind at 1; simpl.
  destruct w as [o l c u wa f]; simpl in *; subst c; simpl.
  now rewrite List.app_nil_r.
Qed.

(** ** The demultiplexer: routing *)




(** * Further properties *)

(** ** Sending and closing *)

(** X1: what [send] of a text hands to the transport, by its [close]
    argument: with [False] (the default) the data event alone; with [True]
    the data event and then a [websocket.close] event without a code; with
    an integer other than zero the data event and then a [websocket.close]
    event that carries the integer as its code; with zero, which is false,
    the data event alone.  Both classes do the same, and [send] returns. *)
Theorem send_closes_after_sending
    (t : str) (bytes_data : option bytes) (code : Z) (w : world) :
  let data := Message "websocket.send" (Some (Some t)) None None in
  let close_event c := Message "websocket.close" None None c in
  let sent close_ := WebsocketConsumer.send (Some t) bytes_data close_ w in
  let async_sent close_ :=
    AsyncWebsocketConsumer.send (Some t) bytes_data close_ w in
  outbound (snd (sent (PyBool false))) = outbound w ++ [data]
  /\ outbound (snd (sent (PyBool true)))
     = outbound w ++ [data; close_event None]
  /\ outbound (snd (sent (PyInt code)))
     = outbound w
       ++ data :: (if (code =? 0)%Z then []
                   else [close_event (Some (PyInt code))])
  /\ (forall close_, fst (sent close_) = Ok tt)
  /\ (forall close_, async_sent close_ = sent close_).
Proof.
  intros data close_event sent async_sent.
  assert (H : forall close_,
             sent close_
             = (Ok tt, World (outbound w ++ data :: closing close_)
                             (layer_calls w) (children w) (upstream w)
                             (waits w) (finishes w))
             /\ async_sent close_ = sent close_).
  { intro close_.
    destruct (sync_send_payload (Some t) bytes_data close_ w
                (payload := data) eq_refl) as [Hs Ha].
    split; [exact Hs|]. unfold async_sent, sent. now rewrite Hs, Ha. }
  split; [|split; [|split; [|split]]].
  - now rewrite (proj1 (H (PyBool false))).
  - now rewrite (proj1 (H (PyBool true))).
  - rewrite (proj1 (H (PyInt code))). cbn [snd outbound]. unfold closing.
    cbn [truthy is_not_None is_not_True andb].
    now destruct (code =? 0)%Z.
  - intro close_. now rewrite (proj1 (H close_)).
  - intro close_. apply H.
Qed.

(** ** Frames *)

(** X2: a frame that has a ["text"] key goes to [receive] as text, even
    when the value under the key is [None], and what it has under ["bytes"]
    is not looked at; without a ["text"] key the value under ["bytes"] goes
    to [receive]; with neither key, [KeyError] is raised and [receive] is
    not called. *)
Theorem frame_dispatch
    (self : consumer) (type_ : string) (text : option str)
    (bytes_field : option (option bytes)) (code : option pyval)
    (b : option bytes) (w : world) :
  WebsocketConsumer.websocket_receive self
    (Message type_ (Some text) bytes_field code) w
  = receive self text None w
  /\ WebsocketConsumer.websocket_receive self
       (Message type_ None (Some b) code) w
     = receive self None b w
  /\ WebsocketConsumer.websocket_receive self (Message type_ None None code) w
     = (Raise (KeyError "bytes"), w)
  /\ AsyncWebsocketConsumer.websocket_receive self
       (Message type_ None None code) w
     = (Raise (KeyError "bytes"), w).
Proof. repeat split. Qed.

(** ** Disconnecting *)

Lemma bind_not_ok {A B : Type} (m : M A) (k : A -> M B) (w : world) :
  (forall a w', forall b, fst (k a w') <> Ok b) ->
  forall b, fst (bind m k w) <> Ok b.
Proof.
  intros Hk b. unfold bind. destruct (m w) as [[a|e] w']; [apply Hk|].
  discriminate.
Qed.

Lemma class_disconnect_not_ok (self : consumer) (message : message) (w : world) :
  fst (WebsocketConsumer.websocket_disconnect self message w) <> Ok tt.
Proof.
  unfold WebsocketConsumer.websocket_disconnect.
  apply bind_not_ok. intros _ w1 b.
  apply bind_not_ok. intros code w2 b'.
  apply bind_not_ok. intros _ w3 b''. discriminate.
Qed.

(** X3: [websocket_disconnect] never returns: whatever the consumer, the
    event and the world, it ends with an exception, which is [StopConsumer]
    when all has gone well.  So does the one of the demultiplexer. *)
Theorem disconnect_never_returns
    (self : consumer) (message : message) (w : world) :
  fst (WebsocketConsumer.websocket_disconnect self message w) <> Ok tt
  /\ fst (AsyncWebsocketConsumer.websocket_disconnect self message w) <> Ok tt
  /\ fst (AsyncJsonWebsocketDemultiplexer.websocket_disconnect self message w)
     <> Ok tt.
Proof.
  split; [apply class_disconnect_not_ok|].
  split; [apply class_disconnect_not_ok|].
  unfold AsyncJsonWebsocketDemultiplexer.websocket_disconnect.
  apply bind_not_ok. intros _ w1 b.
  apply bind_not_ok. intros _ w2 b'. destruct b'.
  apply class_disconnect_not_ok.
Qed.

(** X4: a disconnect event without a ["code"] raises [KeyError], after the
    groups have been left and before the [disconnect] of the application
    is called. *)
Theorem disconnect_without_code
    (self : consumer) (type_ : string) (text : option (option str))
    (bytes_field : option (option bytes)) (w : world) :
  groups self = [] \/ the_channel_layer self = Layer true ->
  let failure :=
    (@Raise unit (KeyError "code"),
     after_group_calls group_discard_call self w) in
  WebsocketConsumer.websocket_disconnect self
    (Message type_ text bytes_field None) w = failure
  /\ AsyncWebsocketConsumer.websocket_disconnect self
       (Message type_ text bytes_field None) w = failure.
Proof.
  intros Hg failure.
  rewrite (sync_disconnect_after_discards self Hg),
    (async_disconnect_after_discards self Hg).
  split; reflexivity.
Qed.

(** ** Connecting *)

(** X5: an exception of the [connect] of the application other than the
    two signals goes through [websocket_connect] as it is; the machine
    emits neither [accept] nor [close], and the groups joined before stay
    joined. *)
Theorem connect_failure_propagates
    (self : consumer) (message : message) (e : exn) (w w' : world) :
  groups self = [] \/ the_channel_layer self = Layer true ->
  connect self (after_group_calls group_add_call self w) = (Raise e, w') ->
  e <> AcceptConnection ->
  e <> DenyConnection ->
  WebsocketConsumer.websocket_connect self message w = (Raise e, w')
  /\ AsyncWebsocketConsumer.websocket_connect self message w = (Raise e, w').
Proof.
  intros Hg Hc Ha Hd.
  rewrite (sync_connect_after_adds self Hg),
    (async_connect_after_adds self Hg).
  unfold try_except. rewrite Hc.
  destruct e; try (split; reflexivity); contradiction.
Qed.

(** ** A whole connection *)

(** X6: [self] is the consumer as it is when the connection opens and
    [self'] as it is when it closes; its hooks may be any, and may have
    changed in between, but [groups], the channel name and the layer are
    what they were.  If [connect] and [disconnect] leave the channel layer
    alone, then over the connection the layer receives one [group_add] for
    each declared group and then one [group_discard] for each, whatever
    the hooks raise and whatever the events carry. *)
Theorem groups_balanced
    (self self' : consumer) (opening closing_ : message) (w : world) :
  groups self = [] \/ the_channel_layer self = Layer true ->
  groups self' = groups self ->
  channel_name self' = channel_name self ->
  the_channel_layer self' = the_channel_layer self ->
  (forall w0, layer_calls (snd (connect self w0)) = layer_calls w0) ->
  (forall code w0, layer_calls (snd (disconnect self' code w0))
                   = layer_calls w0) ->
  let calls :=
    layer_calls w
    ++ map (fun g => group_add_call g (channel_name self)) (groups self)
    ++ map (fun g => group_discard_call g (channel_name self)) (groups self)
  in
  layer_calls
    (snd (WebsocketConsumer.websocket_disconnect self' closing_
            (snd (WebsocketConsumer.websocket_connect self opening w))))
  = calls
  /\ layer_calls
       (snd (AsyncWebsocketConsumer.websocket_disconnect self' closing_
               (snd (AsyncWebsocketConsumer.websocket_connect self opening
                       w))))
     = calls.
Proof.
  intros Hg Eg En El Hc Hd calls.
  assert (Hg' : groups self' = [] \/ the_channel_layer self' = Layer true)
    by (rewrite Eg, El; exact Hg).
  destruct async_lifecycle_is_sync as (-> & _ & -> & _).
  assert (G : layer_calls
                (snd (WebsocketConsumer.websocket_disconnect self' closing_
                        (snd (WebsocketConsumer.websocket_connect self opening
                                w))))
              = calls); [|split; exact G].
  set (w1 := snd (WebsocketConsumer.websocket_connect self opening w)).
  assert (H1 : layer_calls w1
               = layer_calls w
                 ++ map (fun g => group_add_call g (channel_name self))
                        (groups self)).
  { unfold w1. rewrite (sync_connect_after_adds self Hg).
    unfold try_except.
    specialize (Hc (after_group_calls group_add_call self w)).
    destruct (connect self (after_group_calls group_add_call self w))
      as [[[]|e] w'] eqn:E; cbn [snd] in *.
    - exact Hc.
    - destruct e; cbn [on_connect_signal snd]; exact Hc. }
  rewrite (sync_disconnect_after_discards self' Hg').
  unfold calls. rewrite List.app_assoc, <- H1.
  set (w1' := after_group_calls group_discard_call self' w1).
  assert (H2 : layer_calls w1'
               = layer_calls w1
                 ++ map (fun g => group_discard_call g (channel_name self))
                        (groups self)).
  { unfold w1', after_group_calls. now rewrite Eg, En. }
  rewrite <- H2. unfold bind, getitem.
  destruct (msg_code closing_) as [code|]; [|reflexivity].
  cbn. specialize (Hd code w1').
  destruct (disconnect self' code w1') as [[[]|e] w']; exact Hd.
Qed.

(** ** What the codec writes *)

(** X8: [encode_json] writes different texts for different JSON values, in
    both JSON classes. *)
Theorem encode_json_injective (v1 v2 : json) :
  representable v1 = true ->
  representable v2 = true ->
  v1 <> v2 ->
  JsonWebsocketConsumer.encode_json v1 <> JsonWebsocketConsumer.encode_json v2
  /\ AsyncJsonWebsocketConsumer.encode_json v1
     <> AsyncJsonWebsocketConsumer.encode_json v2.
Proof.
  intros H1 H2 Hne.
  assert (D : json_dumps v1 <> json_dumps v2).
  { intro E.
    pose proof (json_loads_dumps v1 H1) as L1.
    pose proof (json_loads_dumps v2 H2) as L2.
    rewrite E in L1. rewrite L1 in L2. apply Hne. now injection L2. }
  split; exact D.
Qed.

(** ** Receiving and sending JSON *)

(** X9: the [receive] of a JSON consumer, given a text that is not empty,
    calls [receive_json] on what the text decodes to, whatever
    [bytes_data] is; when the text does not decode, the error of the
    decoder is raised and [receive_json] is not called. *)
Theorem json_receive_decodes
    (receive_json : json -> M unit) (c : N) (t : str)
    (bytes_data : option bytes) (w : world) :
  let outcome :=
    match json_loads (c :: t) with
    | Ok content => receive_json content w
    | Raise e => (Raise e, w)
    end in
  JsonWebsocketConsumer.receive receive_json (Some (c :: t)) bytes_data w
  = outcome
  /\ AsyncJsonWebsocketConsumer.receive receive_json (Some (c :: t))
       bytes_data w
     = outcome.
Proof.
  unfold JsonWebsocketConsumer.receive, AsyncJsonWebsocketConsumer.receive,
    bind, lift, JsonWebsocketConsumer.decode_json,
    AsyncJsonWebsocketConsumer.decode_json.
  cbn [JsonWebsocketConsumer.truthy_text].
  destruct (json_loads (c :: t)); split; reflexivity.
Qed.

Lemma truthy_dumps content :
  JsonWebsocketConsumer.truthy_text (Some (json_dumps content)) = true.
Proof.
  destruct (json_dumps_head content) as (c & r & E & _). now rewrite E.
Qed.

(** X10: [send_json] of a representable value emits one [websocket.send]
    with the encoded value as text, followed by a close event when the
    [close] argument is true; a JSON consumer that receives this text in a
    frame calls its [receive_json] on the value that was sent. *)
Theorem send_json_is_received
    (base : consumer) (receive_json : json -> M unit) (content : json)
    (close_ : pyval) (w w' : world) :
  representable content = true ->
  let text := JsonWebsocketConsumer.encode_json content in
  emitted_by (JsonWebsocketConsumer.send_json content close_) w
  = Message "websocket.send" (Some (Some text)) None None :: closing close_
  /\ emitted_by (AsyncJsonWebsocketConsumer.send_json content close_) w
  = Message "websocket.send" (Some (Some text)) None None :: closing close_
  /\ WebsocketConsumer.websocket_receive (json_consumer base receive_json)
       (Message "websocket.receive" (Some (Some text)) None None) w'
     = receive_json content w'
  /\ AsyncWebsocketConsumer.websocket_receive
       (async_json_consumer base receive_json)
       (Message "websocket.receive" (Some (Some text)) None None) w'
     = receive_json content w'.
Proof.
  intros Hr text.
  assert (Hs : forall s, s = JsonWebsocketConsumer.send_json content close_
                         \/ s = AsyncJsonWebsocketConsumer.send_json content
                                  close_ ->
               emitted_by s w
               = Message "websocket.send" (Some (Some text)) None None
                   :: closing close_).
  { intros s Hs.
    destruct (sync_send_payload (Some text) None close_ w
                (payload := _) eq_refl) as [E1 E2].
    unfold emitted_by.
    destruct Hs as [-> | ->];
      unfold JsonWebsocketConsumer.send_json,
        AsyncJsonWebsocketConsumer.send_json, bind, ret;
      fold text;
      change (AsyncJsonWebsocketConsumer.encode_json content) with text;
      rewrite ?E1, ?E2; cbn [snd outbound];
      apply skipn_length_app. }
  split; [apply Hs; now left|]. split; [apply Hs; now right|].
  assert (Hd : json_loads text = Ok content)
    by (now apply json_loads_dumps).
  unfold WebsocketConsumer.websocket_receive,
    AsyncWebsocketConsumer.websocket_receive, json_consumer,
    async_json_consumer, receive, msg_text,
    JsonWebsocketConsumer.receive, AsyncJsonWebsocketConsumer.receive.
  unfold text at 1 3. unfold JsonWebsocketConsumer.encode_json at 1 2.
  rewrite truthy_dumps.
  unfold bind, lift, JsonWebsocketConsumer.decode_json,
    AsyncJsonWebsocketConsumer.decode_json.
  rewrite Hd. split; reflexivity.
Qed.

(** ** The demultiplexer: the whole class *)


(** X12: with a running child, usable groups and a close code, the
    [websocket_disconnect] of the demultiplexer runs the [disconnect] of
    the application in the world where the event has been handed to every
    running child, [asyncio.wait] has been called once on their tasks with
    the timeout of 5, and the groups have been left, whatever the scheduler
    says of the tasks; it ends with [StopConsumer] when [disconnect]
    returns and with the exception of [disconnect] otherwise. *)
Theorem demultiplexer_disconnect_runs_hook
    (self : consumer) (type_ : string) (text : option (option str))
    (bytes_field : option (option bytes)) (code : pyval) (w : world) :
  children w <> [] ->
  groups self = [] \/ the_channel_layer self = Layer true ->
  let event := Message type_ text bytes_field (Some code) in
  let w1 :=
    World (outbound w)
          (layer_calls w
           ++ map (fun g => group_discard_call g (channel_name self))
                  (groups self))
          (children w)
          (upstream w ++ map (fun stream => (stream, event)) (children w))
          (waits w
           ++ [(children w,
                AsyncJsonWebsocketDemultiplexer.application_close_timeout)])
          (finishes w) in
  AsyncJsonWebsocketDemultiplexer.websocket_disconnect self event w
  = match disconnect self code w1 with
    | (Ok _, w') => (Raise StopConsumer, w')
    | (Raise e, w') => (Raise e, w')
    end.
Proof.
  intros Hc Hg event w1.
  rewrite demultiplexer_disconnect_with_children by exact Hc.
  rewrite (async_disconnect_after_discards self Hg).
  match goal with |- _ ?W = _ => change W with w1 end.
  unfold bind, getitem. cbn [msg_code event ret].
  destruct (disconnect self code w1) as [[[]|e] w']; reflexivity.
Qed.

Lemma websocket_send_outcome (m : message) (stream_name : str) (w : world) :
  AsyncJsonWebsocketDemultiplexer.websocket_send m stream_name w
  = match get_text m with
    | None =>
        (Raise (TypeError
           "the JSON object must be str, bytes or bytearray, not NoneType"),
         w)
    | Some t =>
        match json_loads t with
        | Raise e => (Raise e, w)
        | Ok value => (Ok tt, emit (enveloped_send stream_name value) w)
        end
    end.
Proof.
  unfold AsyncJsonWebsocketDemultiplexer.websocket_send, bind, lift,
    AsyncJsonWebsocketConsumer.decode_json.
  destruct (get_text m) as [t|]; [|reflexivity].
  destruct (json_loads t); reflexivity.
Qed.

(** X13: what the demultiplexer does with the send of a child: without a
    text (a send of bytes, or a text that is [None]) it raises [TypeError];
    with a text that does not decode it raises the error of the decoder; in
    both cases nothing is emitted.  Otherwise it emits one [websocket.send]
    with the envelope, and never closes. *)
Theorem demultiplexer_send_outcomes
    (m : message) (stream_name : str) (w : world) :
  let sent := AsyncJsonWebsocketDemultiplexer.websocket_send m stream_name w in
  match get_text m with
  | None =>
      sent
      = (Raise (TypeError
           "the JSON object must be str, bytes or bytearray, not NoneType"),
         w)
  | Some t =>
      match json_loads t with
      | Raise e => sent = (Raise e, w)
      | Ok value =>
          fst sent = Ok tt
          /\ emitted_by
               (AsyncJsonWebsocketDemultiplexer.websocket_send m stream_name) w
             = [enveloped_send stream_name value]
      end
  end.
Proof.
  intro sent. unfold sent, emitted_by. rewrite websocket_send_outcome.
  destruct (get_text m) as [t|]; [|reflexivity].
  destruct (json_loads t); [|reflexivity].
  split; [reflexivity|]. cbn [snd emit outbound]. apply skipn_length_app.
Qed.

Lemma lookup_contains (d : list (str * json)) (key : str) (w : world) :
  AsyncJsonWebsocketDemultiplexer.contains d key = true ->
  exists v, AsyncJsonWebsocketDemultiplexer.lookup d key w = (Ok v, w)
            /\ In (key, v) d.
Proof.
  unfold AsyncJsonWebsocketDemultiplexer.contains.
  induction d as [|[k x] d IH]; cbn; [discriminate|].
  destruct (str_eqb k key) eqn:E.
  - intros _. apply str_eqb_eq in E. subst k. exists x. auto.
  - cbn. intro H. destruct (IH H) as (v & Hv & Hin). exists v. auto.
Qed.

(** X14: [receive_json] hands every object that has the two keys to
    [send_upstream], with the value under ["stream"] as the stream, whatever
    that value is, and the value under ["payload"], encoded, as the text;
    it sends nothing to the client. *)
Theorem envelope_is_routed
    (d : list (str * json)) (w : world) :
  In (txt "stream") (map fst d) ->
  In (txt "payload") (map fst d) ->
  exists stream payload,
    In (txt "stream", stream) d
    /\ In (txt "payload", payload) d
    /\ AsyncJsonWebsocketDemultiplexer.receive_json (JDict d) w
       = Demultiplexer.send_upstream stream (child_receive payload) w
    /\ outbound (snd (AsyncJsonWebsocketDemultiplexer.receive_json (JDict d) w))
       = outbound w.
Proof.
  intros Hs Hp. apply contains_In in Hs, Hp.
  destruct (lookup_contains d _ w Hs) as (s & Ls & Is).
  destruct (lookup_contains d _ w Hp) as (p & Lp & Ip).
  exists s, p. split; [exact Is|]. split; [exact Ip|].
  assert (E : AsyncJsonWebsocketDemultiplexer.receive_json (JDict d) w
              = Demultiplexer.send_upstream s (child_receive p) w).
  { unfold AsyncJsonWebsocketDemultiplexer.receive_json.
    rewrite Hs, Hp. cbn [andb].
    unfold bind at 1. rewrite Ls. unfold bind at 1. rewrite Lp. reflexivity. }
  split; [exact E|]. rewrite E. reflexivity.
Qed.

(** X15: the two directions of the demultiplexer undo each other.  For a
    child that sends a Unicode text that decodes, on a stream whose name is
    a well-formed string (no high surrogate directly before a low one), the
    event the demultiplexer emits, received as a frame by a demultiplexer,
    is handed to the child of that stream with a text that decodes to the
    value the child had sent. *)
Theorem demultiplexers_are_inverse
    (base : consumer) (t : str) (value : json) (stream_name : str)
    (m : message) (w w' : world) :
  unicode_text t = true ->
  get_text m = Some t ->
  json_loads t = Ok value ->
  well_formed_str stream_name = true ->
  exists sent,
    emitted_by (AsyncJsonWebsocketDemultiplexer.websocket_send m stream_name)
               w = [sent]
    /\ AsyncWebsocketConsumer.websocket_receive (demultiplexer base)
         (Message "websocket.receive" (msg_text sent) None None) w'
       = Demultiplexer.send_upstream (JStr stream_name) (child_receive value)
           w'
    /\ AsyncJsonWebsocketConsumer.decode_json (get_text (child_receive value))
       = Ok value.
Proof.
  intros Ht Hm Hv Hn.
  exists (enveloped_send stream_name value).
  destruct (decoded_value_round_trips t value Ht Hv) as [Hr Hd].
  split; [|split].
  - unfold emitted_by. rewrite websocket_send_outcome, Hm, Hv.
    cbn [snd emit outbound]. apply skipn_length_app.
  - set (envelope := JDict [(txt "stream", JStr stream_name);
                            (txt "payload", value)]).
    assert (He : json_loads (json_dumps envelope) = Ok envelope).
    { apply json_loads_dumps. cbn. now rewrite Hn, Hr. }
    unfold AsyncWebsocketConsumer.websocket_receive, demultiplexer, receive,
      msg_text, enveloped_send, AsyncJsonWebsocketDemultiplexer.receive,
      AsyncJsonWebsocketConsumer.receive,
      AsyncJsonWebsocketConsumer.encode_json.
    fold envelope. rewrite truthy_dumps.
    unfold bind at 1, lift, AsyncJsonWebsocketConsumer.decode_json.
    rewrite He. reflexivity.
  - exact Hd.
Qed.

(** ** The authentication middleware *)

Lemma dict_get_set_same {V : Type} (d : list (str * V)) key value :
  dict_get (dict_set d key value) key = Some value.
Proof.
  induction d as [|[k v] d IH]; cbn.
  - now rewrite str_eqb_refl.
  - destruct (str_eqb k key) eqn:E; cbn; rewrite E; [reflexivity|exact IH].
Qed.

Lemma dict_get_set_other {V : Type} (d : list (str * V)) key value other :
  other <> key ->
  dict_get (dict_set d key value) other = dict_get d other.
Proof.
  intro Hne. induction d as [|[k v] d IH]; cbn.
  - destruct (str_eqb key other) eqn:E; [|reflexivity].
    apply str_eqb_eq in E. congruence.
  - destruct (str_eqb k key) eqn:E; cbn.
    + apply str_eqb_eq in E. subst k.
      destruct (str_eqb key other) eqn:E'; [|reflexivity].
      apply str_eqb_eq in E'. congruence.
    + destruct (str_eqb k other); [reflexivity|exact IH].
Qed.

Section AuthFacts.

Variable value : Type.
Variable auth_get_user : Auth.entry value -> value.

(** X16: on a scope without a ["session"], the middleware raises
    [ValueError]; the application it wraps is not called and the scope is
    as it was. *)
Theorem auth_requires_session
    (A : Type) (inner : Auth.state value -> result A * Auth.state value)
    (st : Auth.state value) :
  dict_get (Auth.scope st) (txt "session") = None ->
  Auth.call inner st
  = (Raise (ValueError
       "AuthMiddleware cannot find session in scope. SessionMiddleware must be above it."),
     st).
Proof. intro H. unfold Auth.call. now rewrite H. Qed.

(** X17: on a scope with a ["session"], the middleware calls the
    application it wraps on the scope, where ["user"] is what it was or,
    if it was missing, a lazy object that has not been evaluated; every
    other key is as it was, and the authentication backend has not been
    called. *)
Theorem auth_adds_lazy_user
    (A : Type) (inner : Auth.state value -> result A * Auth.state value)
    (st : Auth.state value) (session : Auth.entry value) :
  dict_get (Auth.scope st) (txt "session") = Some session ->
  exists st',
    Auth.call inner st = inner st'
    /\ Auth.auth_calls st' = Auth.auth_calls st
    /\ dict_get (Auth.scope st') (txt "user")
       = match dict_get (Auth.scope st) (txt "user") with
         | Some user => Some user
         | None => Some (Auth.LazyUser None)
         end
    /\ forall key, key <> txt "user" ->
                   dict_get (Auth.scope st') key
                   = dict_get (Auth.scope st) key.
Proof.
  intro H. unfold Auth.call. rewrite H.
  destruct (dict_get (Auth.scope st) (txt "user")) as [user|] eqn:U.
  - exists st. rewrite U. auto.
  - eexists. split; [reflexivity|]. cbn [Auth.auth_calls Auth.scope].
    split; [reflexivity|]. split; [apply dict_get_set_same|].
    intros key Hk. now apply dict_get_set_other.
Qed.

Lemma get_user_cached (st : Auth.state value) (cached : Auth.entry value) :
  dict_get (Auth.scope st) (txt "_cached_user") = Some cached ->
  Auth.get_user auth_get_user st = (Ok cached, st).
Proof. intro C. unfold Auth.get_user. now rewrite !C. Qed.

Lemma get_user_fresh (st : Auth.state value) (session : Auth.entry value) :
  dict_get (Auth.scope st) (txt "_cached_user") = None ->
  dict_get (Auth.scope st) (txt "session") = Some session ->
  Auth.get_user auth_get_user st
  = (Ok (Auth.Obj (auth_get_user session)),
     Auth.State (dict_set (Auth.scope st) (txt "_cached_user")
                          (Auth.Obj (auth_get_user session)))
                (Auth.auth_calls st ++ [session])).
Proof.
  intros C S. unfold Auth.get_user. rewrite C, S.
  cbn [Auth.scope]. now rewrite dict_get_set_same.
Qed.

(** X18: [get_user] is cached in the scope: when it returns a user, calling
    it again returns the same user and changes nothing.  A user already
    under ["_cached_user"] is returned as it is, without the backend and
    without a session; otherwise the user is the one the backend gives for
    the session of the scope, and the backend has been called once. *)
Theorem get_user_caches
    (st st' : Auth.state value) (user : Auth.entry value) :
  Auth.get_user auth_get_user st = (Ok user, st') ->
  Auth.get_user auth_get_user st' = (Ok user, st')
  /\ match dict_get (Auth.scope st) (txt "_cached_user") with
     | Some cached => user = cached /\ st' = st
     | None =>
         exists session,
           dict_get (Auth.scope st) (txt "session") = Some session
           /\ user = Auth.Obj (auth_get_user session)
           /\ Auth.auth_calls st' = Auth.auth_calls st ++ [session]
     end.
Proof.
  intro H.
  destruct (dict_get (Auth.scope st) (txt "_cached_user")) as [cached|] eqn:C.
  - rewrite (get_user_cached st cached C) in H. injection H as <- <-.
    split; [now apply get_user_cached|auto].
  - destruct (dict_get (Auth.scope st) (txt "session")) as [session|] eqn:S.
    + rewrite (get_user_fresh st session C S) in H. injection H as <- <-.
      split; [apply get_user_cached; apply dict_get_set_same|].
      exists session. auto.
    + unfold Auth.get_user in H. rewrite C, S in H. discriminate.
Qed.

(** X19: on a scope with neither a cached user nor a session, [get_user]
    raises [KeyError] for ["session"] and leaves the scope as it was. *)
Theorem get_user_needs_session (st : Auth.state value) :
  dict_get (Auth.scope st) (txt "_cached_user") = None ->
  dict_get (Auth.scope st) (txt "session") = None ->
  Auth.get_user auth_get_user st = (Raise (KeyError "session"), st).
Proof. intros C S. unfold Auth.get_user. now rewrite C, S. Qed.

(** X20: an application that uses the user of its scope, behind the
    middleware, on a scope with a session and no user: the user is the one
    the backend gives for the session, the backend has been called once,
    and using the user again, or calling [get_user], gives the same user
    without another call. *)
Theorem lazy_user_is_resolved_once
    (st : Auth.state value) (session : Auth.entry value) :
  dict_get (Auth.scope st) (txt "session") = Some session ->
  dict_get (Auth.scope st) (txt "user") = None ->
  dict_get (Auth.scope st) (txt "_cached_user") = None ->
  exists st',
    Auth.call (Auth.force_user auth_get_user) st
    = (Ok (Auth.Obj (auth_get_user session)), st')
    /\ Auth.auth_calls st' = Auth.auth_calls st ++ [session]
    /\ Auth.force_user auth_get_user st'
       = (Ok (Auth.Obj (auth_get_user session)), st')
    /\ Auth.get_user auth_get_user st'
       = (Ok (Auth.Obj (auth_get_user session)), st').
Proof.
  intros S U C.
  unfold Auth.call. rewrite S, U.
  set (st0 := Auth.State (dict_set (Auth.scope st) (txt "user")
                                   (Auth.LazyUser None))
                         (Auth.auth_calls st)).
  assert (U0 : dict_get (Auth.scope st0) (txt "user")
               = Some (Auth.LazyUser None)) by apply dict_get_set_same.
  assert (C0 : dict_get (Auth.scope st0) (txt "_cached_user") = None).
  { cbn [st0 Auth.scope]. now rewrite dict_get_set_other by discriminate. }
  assert (S0 : dict_get (Auth.scope st0) (txt "session") = Some session).
  { cbn [st0 Auth.scope]. now rewrite dict_get_set_other by discriminate. }
  unfold Auth.force_user at 1. rewrite U0, (get_user_fresh st0 session C0 S0).
  eexists. split; [reflexivity|].
  cbn [Auth.auth_calls Auth.scope st0]. split; [reflexivity|]. split.
  - unfold Auth.force_user. cbn [Auth.scope].
    now rewrite dict_get_set_same.
  - apply get_user_cached. cbn [Auth.scope].
    rewrite dict_get_set_other by discriminate. apply dict_get_set_same.
Qed.

End AuthFacts.

End Properties.

(** * Examples *)

#[local] Existing Instance whole_floats.

(** The floats of the examples are written and read back as the
    interpreter does. *)
#[local] Instance whole_floats_laws : PyFloatLaws whole_floats.
Proof.
  split.
  - intros [z| | |] rest Hk Hr; try discriminate Hk.
    exists (Z.to_int z). cbn [float_repr whole_floats].
    unfold match_number. rewrite <- List.app_assoc.
    rewrite match_integer_digits by reflexivity.
    pose proof (ends_value_no_digit rest Hr) as Hd.
    destruct (ends_value_no_frac rest Hr) as [_ He].
    change (txt ".0" ++ rest) with (46 :: 48 :: rest).
    change (match_frac (46 :: 48 :: rest))
      with (Some (snd (scan_digits rest))).
    pose proof (scan_digits_uint Decimal.Nil rest Hd) as Hs.
    cbn [uint_chars app] in Hs. rewrite Hs. cbn [snd]. now rewrite He.
  - intros [z| | |] Hk; try discriminate Hk.
    cbn [float_repr float_of_str whole_floats].
    rewrite match_integer_digits by reflexivity.
    now rewrite DecimalZ.of_to.
  - now intros [z| | |] Hk; try discriminate Hk.
  - now intros [z| | |] Hk; try discriminate Hk.
  - now intros [z| | |] Hk; try discriminate Hk.
  - reflexivity.
  - reflexivity.
  - reflexivity.
Qed.

Lemma codec_round_trip_witness :
  representable example_envelope = true
  /\ JsonWebsocketConsumer.decode_json
       (Some (JsonWebsocketConsumer.encode_json example_envelope))
     = Ok example_envelope
  /\ representable example_reading = true
  /\ JsonWebsocketConsumer.encode_json example_reading
     = 123 :: 34 :: txt "t" ++ 34 :: txt ": 21.0, " ++ 34 :: txt "range"
         ++ 34 :: txt ": [-Infinity, NaN]}"
  /\ JsonWebsocketConsumer.decode_json
       (Some (JsonWebsocketConsumer.encode_json example_reading))
     = Ok example_reading.
Proof.
  split; [reflexivity|].
  split; [apply (codec_round_trip example_envelope eq_refl)|].
  split; [reflexivity|].
  split; [reflexivity|].
  apply (codec_round_trip example_reading eq_refl).
Defined.

(** C8 (as stated) fails in two ways.  For a JSON text that is not
    written the way [encode] writes, [encode(decode(x))] is not [x]: the
    text [[1,2]] decodes to the list of 1 and 2, which [encode] writes with
    a space after the comma.  And for a string that holds a high surrogate
    directly before a low one, [decode(encode(v))] is not [v]: the two are
    written as two escapes, which read back as the one character of the
    pair. *)
Lemma reencoded_text_differs :
  JsonWebsocketConsumer.decode_json (Some (txt "[1,2]"))
  = Ok (JList [JInt 1; JInt 2])
  /\ JsonWebsocketConsumer.encode_json (JList [JInt 1; JInt 2])
     = txt "[1, 2]"
  /\ JsonWebsocketConsumer.encode_json (JList [JInt 1; JInt 2])
     <> txt "[1,2]"
  /\ JsonWebsocketConsumer.decode_json
       (Some (JsonWebsocketConsumer.encode_json (JStr [55296; 56320])))
     = Ok (JStr [65536])
  /\ JStr [65536] <> JStr [55296; 56320].
Proof. repeat split; discriminate. Qed.

Lemma connect_signals_witness :
  (groups signalling_consumer = []
   \/ the_channel_layer signalling_consumer = Layer true)
  /\ WebsocketConsumer.websocket_connect signalling_consumer connect_message
       quiet_world
     = (Ok tt,
        emit accept_event
          (after_group_calls group_add_call signalling_consumer quiet_world)).
Proof.
  pose proof (connect_signals signalling_consumer connect_message quiet_world
                (after_group_calls group_add_call signalling_consumer
                   quiet_world)
                (or_intror eq_refl)) as (Haccept & _).
  split.
  - right; reflexivity.
  - apply (Haccept eq_refl).
Defined.

(** C4 (as stated) fails: a [connect] that returns without raising either
    signal leaves the connection without an [accept]. *)
Lemma connect_returning_emits_nothing :
  connect silent_consumer quiet_world = (Ok tt, quiet_world)
  /\ emitted_by (WebsocketConsumer.websocket_connect silent_consumer
                   connect_message) quiet_world = []
  /\ emitted_by (AsyncWebsocketConsumer.websocket_connect silent_consumer
                   connect_message) quiet_world = [].
Proof. repeat split. Qed.


Lemma groups_before_hooks_witness :
  (groups chat_consumer = [] \/ the_channel_layer chat_consumer = Layer true)
  /\ layer_calls
       (snd (WebsocketConsumer.websocket_connect chat_consumer connect_message
               quiet_world))
     = [group_add_call (txt "chat") (txt "specific.channel!1")]
  /\ layer_calls
       (snd (WebsocketConsumer.websocket_disconnect chat_consumer
               (disconnect_message 1000) quiet_world))
     = [group_discard_call (txt "chat") (txt "specific.channel!1")].
Proof.
  pose proof (groups_before_hooks chat_consumer connect_message quiet_world
                (or_intror eq_refl)) as (Hc & _).
  pose proof (groups_before_hooks chat_consumer (disconnect_message 1000)
                quiet_world (or_intror eq_refl)) as (_ & _ & Hd & _).
  split; [right; reflexivity|].
  split; [rewrite Hc | rewrite Hd]; reflexivity.
Defined.

Lemma groups_unsupported_fail_eagerly_witness :
  groups unconfigured_consumer <> []
  /\ the_channel_layer unconfigured_consumer <> Layer true
  /\ WebsocketConsumer.websocket_connect unconfigured_consumer connect_message
       quiet_world
     = (Raise (InvalidChannelLayerError
                 "BACKEND is unconfigured or doesn't support groups"),
        quiet_world).
Proof.
  assert (Hg : groups unconfigured_consumer <> []) by discriminate.
  assert (Hl : the_channel_layer unconfigured_consumer <> Layer true)
    by discriminate.
  split; [exact Hg|]. split; [exact Hl|].
  apply (groups_unsupported_fail_eagerly unconfigured_consumer connect_message
           quiet_world Hg Hl).
Defined.

Lemma malformed_envelope_rejected_witness :
  ~ is_envelope (JDict [(txt "stream", JStr (txt "a"))])
  /\ AsyncJsonWebsocketDemultiplexer.receive_json
       (JDict [(txt "stream", JStr (txt "a"))]) quiet_world
     = (Raise
          (ValueError
             "Invalid multiplexed **frame received (no channel/payload key)"),
        quiet_world).
Proof.
  assert (H : ~ is_envelope (JDict [(txt "stream", JStr (txt "a"))])).
  { intros (d & E & _ & Hp). injection E as <-.
    simpl in Hp. destruct Hp as [Hp|[]]. discriminate Hp. }
  split; [exact H|].
  apply (malformed_envelope_rejected chat_consumer _ quiet_world H).
Defined.

Lemma demultiplexer_disconnect_without_children_witness :
  children quiet_world = []
  /\ AsyncJsonWebsocketDemultiplexer.websocket_disconnect chat_consumer
       (disconnect_message 1000) quiet_world
     = (Raise (ValueError "Set of coroutines/Futures is empty."), quiet_world).
Proof.
  split; [reflexivity|].
  apply (demultiplexer_disconnect_without_children chat_consumer
           (disconnect_message 1000) quiet_world eq_refl).
Defined.


Lemma disconnect_without_code_witness :
  (groups chat_consumer = [] \/ the_channel_layer chat_consumer = Layer true)
  /\ WebsocketConsumer.websocket_disconnect chat_consumer
       (Message "websocket.disconnect" None None None) quiet_world
     = (Raise (KeyError "code"),
        after_group_calls group_discard_call chat_consumer quiet_world).
Proof.
  split; [right; reflexivity|].
  apply (disconnect_without_code chat_consumer "websocket.disconnect" None None
           quiet_world (or_intror eq_refl)).
Defined.

Lemma connect_failure_propagates_witness :
  (groups failing_consumer = []
   \/ the_channel_layer failing_consumer = Layer true)
  /\ WebsocketConsumer.websocket_connect failing_consumer connect_message
       quiet_world
     = (Raise (ValueError "no such room"),
        after_group_calls group_add_call failing_consumer quiet_world).
Proof.
  split; [right; reflexivity|].
  apply (connect_failure_propagates failing_consumer connect_message
           (ValueError "no such room") quiet_world
           (after_group_calls group_add_call failing_consumer quiet_world)
           (or_intror eq_refl) eq_refl);
    discriminate.
Defined.

Lemma groups_balanced_witness :
  (groups chat_consumer = [] \/ the_channel_layer chat_consumer = Layer true)
  /\ layer_calls
       (snd (WebsocketConsumer.websocket_disconnect chat_consumer
               (disconnect_message 1000)
               (snd (WebsocketConsumer.websocket_connect chat_consumer
                       connect_message quiet_world))))
     = [group_add_call (txt "chat") (txt "specific.channel!1");
        group_discard_call (txt "chat") (txt "specific.channel!1")].
Proof.
  split; [right; reflexivity|].
  apply (groups_balanced chat_consumer chat_consumer connect_message
           (disconnect_message 1000) quiet_world (or_intror eq_refl)
           eq_refl eq_refl eq_refl).
  - intro w0. reflexivity.
  - intros code w0. reflexivity.
Defined.

Lemma encode_json_injective_witness :
  JsonWebsocketConsumer.encode_json (JInt 1)
  <> JsonWebsocketConsumer.encode_json (JStr (txt "1"))
  /\ AsyncJsonWebsocketConsumer.encode_json (JInt 1)
     <> AsyncJsonWebsocketConsumer.encode_json (JStr (txt "1")).
Proof.
  apply (encode_json_injective (JInt 1) (JStr (txt "1")) eq_refl eq_refl).
  discriminate.
Defined.

Lemma send_json_is_received_witness :
  representable example_envelope = true
  /\ emitted_by (JsonWebsocketConsumer.send_json example_envelope
                   (PyBool false)) quiet_world
     = [Message "websocket.send"
                (Some (Some (JsonWebsocketConsumer.encode_json
                               example_envelope))) None None].
Proof.
  split; [reflexivity|].
  apply (send_json_is_received chat_consumer
           JsonWebsocketConsumer.default_receive_json example_envelope
           (PyBool false) quiet_world quiet_world eq_refl).
Defined.


Lemma demultiplexer_disconnect_runs_hook_witness :
  children busy_world <> []
  /\ (groups chat_consumer = [] \/ the_channel_layer chat_consumer = Layer true)
  /\ AsyncJsonWebsocketDemultiplexer.websocket_disconnect chat_consumer
       (disconnect_message 1000) busy_world
     = (Raise StopConsumer,
        World [] [group_discard_call (txt "chat") (txt "specific.channel!1")]
              [JStr (txt "a")]
              [(JStr (txt "a"), disconnect_message 1000)]
              [([JStr (txt "a")], 5%Z)] (fun _ _ => false)).
Proof.
  assert (H : children busy_world <> []) by discriminate.
  split; [exact H|]. split; [right; reflexivity|].
  apply (demultiplexer_disconnect_runs_hook chat_consumer
           "websocket.disconnect" None None (PyInt 1000) busy_world H
           (or_intror eq_refl)).
Defined.

Lemma envelope_is_routed_witness :
  In (txt "stream") (map fst [(txt "stream", JInt 3); (txt "payload", JNull)])
  /\ In (txt "payload")
        (map fst [(txt "stream", JInt 3); (txt "payload", JNull)])
  /\ exists stream payload,
       In (txt "stream", stream) [(txt "stream", JInt 3); (txt "payload", JNull)]
       /\ In (txt "payload", payload)
             [(txt "stream", JInt 3); (txt "payload", JNull)]
       /\ AsyncJsonWebsocketDemultiplexer.receive_json
            (JDict [(txt "stream", JInt 3); (txt "payload", JNull)])
            quiet_world
          = Demultiplexer.send_upstream stream (child_receive payload)
              quiet_world
       /\ outbound
            (snd (AsyncJsonWebsocketDemultiplexer.receive_json
                    (JDict [(txt "stream", JInt 3); (txt "payload", JNull)])
                    quiet_world))
          = outbound quiet_world.
Proof.
  assert (H1 : In (txt "stream")
                 (map fst [(txt "stream", JInt 3); (txt "payload", JNull)]))
    by (left; reflexivity).
  assert (H2 : In (txt "payload")
                 (map fst [(txt "stream", JInt 3); (txt "payload", JNull)]))
    by (right; left; reflexivity).
  split; [exact H1|]. split; [exact H2|].
  apply (envelope_is_routed _ quiet_world H1 H2).
Defined.

Lemma demultiplexers_are_inverse_witness :
  unicode_text example_child_text = true
  /\ well_formed_str (txt "a") = true
  /\ exists sent,
       emitted_by
         (AsyncJsonWebsocketDemultiplexer.websocket_send
            (Message "websocket.send" (Some (Some example_child_text))
                     None None) (txt "a")) quiet_world = [sent]
       /\ AsyncWebsocketConsumer.websocket_receive (demultiplexer chat_consumer)
            (Message "websocket.receive" (msg_text sent) None None) quiet_world
          = Demultiplexer.send_upstream (JStr (txt "a"))
              (child_receive (JDict [(txt "k", JInt 2)])) quiet_world
       /\ AsyncJsonWebsocketConsumer.decode_json
            (get_text (child_receive (JDict [(txt "k", JInt 2)])))
          = Ok (JDict [(txt "k", JInt 2)]).
Proof.
  split; [reflexivity|]. split; [reflexivity|].
  apply (demultiplexers_are_inverse chat_consumer example_child_text
           (JDict [(txt "k", JInt 2)]) (txt "a")
           (Message "websocket.send" (Some (Some example_child_text))
                    None None)
           quiet_world quiet_world eq_refl eq_refl eq_refl eq_refl).
Defined.

Lemma auth_requires_session_witness :
  dict_get (Auth.scope (Auth.State (value := nat) [] [])) (txt "session")
  = None
  /\ Auth.call (Auth.get_user user_of_session) (Auth.State [] [])
     = (Raise (ValueError
          "AuthMiddleware cannot find session in scope. SessionMiddleware must be above it."),
        Auth.State [] []).
Proof.
  split; [reflexivity|].
  apply (auth_requires_session nat (Auth.entry nat)
           (Auth.get_user user_of_session) (Auth.State [] []) eq_refl).
Defined.

Lemma auth_adds_lazy_user_witness :
  dict_get (Auth.scope session_scope) (txt "session") = Some (Auth.Obj 7%nat)
  /\ exists st',
       Auth.call (Auth.get_user user_of_session) session_scope
       = Auth.get_user user_of_session st'
       /\ Auth.auth_calls st' = Auth.auth_calls session_scope
       /\ dict_get (Auth.scope st') (txt "user")
          = match dict_get (Auth.scope session_scope) (txt "user") with
            | Some user => Some user
            | None => Some (Auth.LazyUser None)
            end
       /\ forall key, key <> txt "user" ->
                      dict_get (Auth.scope st') key
                      = dict_get (Auth.scope session_scope) key.
Proof.
  split; [reflexivity|].
  apply (auth_adds_lazy_user nat (Auth.entry nat)
           (Auth.get_user user_of_session) session_scope (Auth.Obj 7%nat)
           eq_refl).
Defined.

Lemma get_user_caches_witness :
  Auth.get_user user_of_session session_scope
  = (Ok (Auth.Obj 107%nat),
     Auth.State [(txt "session", Auth.Obj 7%nat);
                 (txt "_cached_user", Auth.Obj 107%nat)]
                [Auth.Obj 7%nat])
  /\ Auth.get_user user_of_session
       (Auth.State [(txt "session", Auth.Obj 7%nat);
                    (txt "_cached_user", Auth.Obj 107%nat)]
                   [Auth.Obj 7%nat])
     = (Ok (Auth.Obj 107%nat),
        Auth.State [(txt "session", Auth.Obj 7%nat);
                    (txt "_cached_user", Auth.Obj 107%nat)]
                   [Auth.Obj 7%nat]).
Proof.
  split; [reflexivity|].
  apply (get_user_caches nat user_of_session session_scope _ _ eq_refl).
Defined.

Lemma get_user_needs_session_witness :
  dict_get (Auth.scope (Auth.State (value := nat) [] [])) (txt "_cached_user")
  = None
  /\ dict_get (Auth.scope (Auth.State (value := nat) [] [])) (txt "session")
     = None
  /\ Auth.get_user user_of_session (Auth.State [] [])
     = (Raise (KeyError "session"), Auth.State [] []).
Proof.
  split; [reflexivity|]. split; [reflexivity|].
  apply (get_user_needs_session nat user_of_session (Auth.State [] [])
           eq_refl eq_refl).
Defined.

Lemma lazy_user_is_resolved_once_witness :
  dict_get (Auth.scope session_scope) (txt "session") = Some (Auth.Obj 7%nat)
  /\ dict_get (Auth.scope session_scope) (txt "user") = None
  /\ dict_get (Auth.scope session_scope) (txt "_cached_user") = None
  /\ exists st',
       Auth.call (Auth.force_user user_of_session) session_scope
       = (Ok (Auth.Obj (user_of_session (Auth.Obj 7%nat))), st')
       /\ Auth.auth_calls st'
          = Auth.auth_calls session_scope ++ [Auth.Obj 7%nat]
       /\ Auth.force_user user_of_session st'
          = (Ok (Auth.Obj (user_of_session (Auth.Obj 7%nat))), st')
       /\ Auth.get_user user_of_session st'
          = (Ok (Auth.Obj (user_of_session (Auth.Obj 7%nat))), st').
Proof.
  split; [reflexivity|]. split; [reflexivity|]. split; [reflexivity|].
  apply (lazy_user_is_resolved_once nat user_of_session session_scope
           (Auth.Obj 7%nat) eq_refl eq_refl eq_refl).
Defined.
